(** * example05: manual BGR-to-gray conversion, checked against its specification

    The program under study is [opencv_examples/c_examples/example05/example05.c].
    Its [main] loads a colour image, allocates two single-channel images, calls
    the library conversion, and then walks the colour pixel data by hand:

<<
    for(row = 0; row < colorimg->height; ++row){
        for(col = 0; col < colorimg->width; ++col){
            blue  = colorData[row * colorstep + col];
            green = colorData[row * colorstep + col + 1];
            red   = colorData[row * colorstep + col + 2];
            gray  = 0.299 * red + 0.587 * green + 0.114 * blue;
            grayData[row * graystep + col] = gray;
        }
    }
>>

    Modelling choices.
    - Pixel buffers are [list Z] (one entry per [unsigned char]); an access
      outside the buffer is undefined behaviour in C and is [None] here.
    - C [int]s are [Z]. Every index the loop forms is checked against the
      buffer, so an index that is accepted is non-negative and below the
      buffer length.
    - The luminance expression is evaluated in IEEE 754 binary64, one rounding
      per operation, left to right, which is what a C compiler does for
      [double] operands when it neither contracts nor widens intermediate
      results. Rocq's primitive floats are binary64 with round-to-nearest-even.
    - The two counted loops run [height] and [width] times; their bodies do
      not change the counters or the bounds, so they are modelled by a
      structurally recursive iteration over the trip count. *)

From Stdlib Require Import ZArith List Floats Uint63 Lia Strings.String.
From stdpp Require Import base option list.
Import ListNotations.

Local Open Scope Z_scope.

(** ** Arithmetic of one pixel *)

Module Luma.

(** [unsigned char] promoted to [int] and converted to [double]. *)
Definition uchar_to_double (z : Z) : float := PrimFloat.of_uint63 (Uint63.of_Z z).

(** Conversion of a [double] to an integer type: the fractional part is
    discarded. [frexp f = (m, e)] with [f = m * 2^e] and [1/2 <= |m| < 1];
    [normfr_mantissa m] is the integer [|m| * 2^53]. *)
Definition trunc_double (f : float) : Z :=
  let (m, e) := FloatOps.Z.frexp f in
  let mag := Z.shiftr (Uint63.to_Z (normfr_mantissa m)) (prec - e) in
  if (f <? 0)%float then - mag else mag.

(** [gray = 0.299 * red + 0.587 * green + 0.114 * blue;] *)
#[warnings="-inexact-float"]
Definition luma (red green blue : Z) : Z :=
  trunc_double (0.299 * uchar_to_double red
                + 0.587 * uchar_to_double green
                + 0.114 * uchar_to_double blue)%float.

(** The luminance of the specification: the real number
    [0.299 R + 0.587 G + 0.114 B = (299 R + 587 G + 114 B) / 1000],
    truncated toward zero. *)
Definition contract_luma (R G B : Z) : Z :=
  Z.quot (299 * R + 587 * G + 114 * B) 1000.

Definition is_uchar (z : Z) : Prop := 0 <= z < 256.

(** *** The same computation on machine integers, for exhaustive checking *)

#[warnings="-inexact-float"]
Definition luma_double (red green blue : int) : float :=
  (0.299 * of_uint63 red + 0.587 * of_uint63 green + 0.114 * of_uint63 blue)%float.

Definition near_contract (red green blue : int) : bool :=
  let y := luma_double red green blue in
  let (m, se) := frshiftexp y in
  let gray := (normfr_mantissa m >> (2154 - se))%uint63 in
  let exact := ((299 * red + 587 * green + 114 * blue) / 1000)%uint63 in
  negb (y <? 0)%float
  && (se <=? 2154)%uint63
  && (exact <=? gray + 1)%uint63
  && (gray <=? exact)%uint63.

Definition uchars : list int :=
  Eval vm_compute in map (fun n => Uint63.of_Z (Z.of_nat n)) (seq 0 256).

Definition near_contract_everywhere : bool :=
  forallb (fun r => forallb (fun g => forallb (fun b => near_contract r g b)
                                               uchars) uchars) uchars.

End Luma.

(** ** Image headers, pixel buffers and the conversion loop *)

(** The fields of OpenCV's [IplImage] that [main] uses. [imageData] is the
    pixel buffer, one list entry per byte. *)
Record IplImage := mkIplImage {
  width : Z;
  height : Z;
  widthStep : Z;
  imageData : list Z
}.

(** [data[i]] as an rvalue; outside the buffer the access is undefined. *)
Definition load (data : list Z) (i : Z) : option Z :=
  if decide (0 <= i) then data !! Z.to_nat i else None.

(** [data[i] = v]; outside the buffer the access is undefined. *)
Definition store (data : list Z) (i v : Z) : option (list Z) :=
  if decide (0 <= i < Z.of_nat (length data))
  then Some (<[Z.to_nat i := v]> data)
  else None.

(** [for (i = i0; i < i0 + trips; ++i) body], for a body that leaves the
    counter and the bound alone. *)
Fixpoint for_loop {A : Type} (trips : nat) (i : Z) (body : Z -> A -> option A) (a : A)
  : option A :=
  match trips with
  | O => Some a
  | S trips' => a' ← body i a; for_loop trips' (i + 1) body a'
  end.

Module Kernel.

(** What the loop changes: the gray buffer. [reads] is a ghost log of the
    offsets of [colorData] the loop has read, in program order. *)
Record state := mkState {
  grayData : list Z;
  reads : list Z
}.

Definition sizeof_uchar : Z := 1.

(** The body of the inner loop (source lines 176 to 184). *)
Definition pixel (colorData : list Z) (colorstep graystep row col : Z) (st : state)
  : option state :=
  blue ← load colorData (row * colorstep + col);
  green ← load colorData (row * colorstep + col + 1);
  red ← load colorData (row * colorstep + col + 2);
  let gray := Luma.luma red green blue in
  grayData' ← store (grayData st) (row * graystep + col) gray;
  Some {| grayData := grayData';
          reads := reads st ++ [row * colorstep + col;
                                row * colorstep + col + 1;
                                row * colorstep + col + 2] |}.

(** Source lines 168 to 186. *)
Definition main_loop_state (colorimg mygrayimg : IplImage) : option state :=
  let colorData := imageData colorimg in
  let grayData0 := imageData mygrayimg in
  let colorstep := Z.quot (widthStep colorimg) sizeof_uchar in
  let graystep := Z.quot (widthStep mygrayimg) sizeof_uchar in
  for_loop (Z.to_nat (height colorimg)) 0
    (fun row =>
       for_loop (Z.to_nat (width colorimg)) 0
         (fun col => pixel colorData colorstep graystep row col))
    {| grayData := grayData0; reads := [] |}.

(** The pixel buffer of [mygrayimg] after the loop. *)
Definition main_loop (colorimg mygrayimg : IplImage) : option (list Z) :=
  grayData <$> main_loop_state colorimg mygrayimg.

(** What the image library hands to the loop. A colour image from
    [cvLoadImage(path, 1)] has three bytes per pixel, rows [widthStep] bytes
    apart and [height * widthStep] bytes of pixel data. *)
Definition color_ok (img : IplImage) : Prop :=
  0 <= width img /\ 0 <= height img /\
  3 * width img <= widthStep img /\
  height img * widthStep img <= Z.of_nat (length (imageData img)).

(** A one-channel image from [cvCreateImage(cvSize(w, h), depth, 1)]. *)
Definition gray_ok (w h : Z) (img : IplImage) : Prop :=
  width img = w /\ height img = h /\
  w <= widthStep img /\
  h * widthStep img <= Z.of_nat (length (imageData img)).

(** The byte at an offset, for statements about offsets known to be inside
    the buffer. *)
Definition byte_at (data : list Z) (i : Z) : Z := default 0 (load data i).

(** The gray value the loop body computes at [row], [col]. *)
Definition gray_at (img : IplImage) (row col : Z) : Z :=
  Luma.luma (byte_at (imageData img) (row * widthStep img + col + 2))
            (byte_at (imageData img) (row * widthStep img + col + 1))
            (byte_at (imageData img) (row * widthStep img + col)).

(** Offsets of the pixel bytes of a colour image: the first [3 * width]
    bytes of each row. The rest of a row is padding. *)
Definition pixel_offset (img : IplImage) (i : Z) : Prop :=
  exists r k, 0 <= r < height img /\ 0 <= k < 3 * width img /\ i = r * widthStep img + k.

Definition padding_offset (img : IplImage) (i : Z) : Prop :=
  exists r k, 0 <= r < height img /\ 3 * width img <= k < widthStep img /\
              i = r * widthStep img + k.

(** Offsets the loop body reads at some pixel of the image: the offset of
    the pixel's column in its row and the two after it. *)
Definition read_offset (img : IplImage) (i : Z) : Prop :=
  exists row col k, 0 <= row < height img /\ 0 <= col < width img /\ 0 <= k <= 2 /\
                    i = row * widthStep img + col + k.

(** Offsets of the useful bytes of a gray image of [w] by [h] pixels. *)
Definition useful_offset (w h : Z) (img : IplImage) (i : Z) : Prop :=
  exists r c, 0 <= r < h /\ 0 <= c < w /\ i = r * widthStep img + c.

(** The pixels the loop has finished when it is about to run the body at
    [row], [col]. *)
Definition finished (colorimg : IplImage) (row col r c : Z) : Prop :=
  0 <= c < width colorimg /\ 0 <= r /\ (r < row \/ (r = row /\ c < col)).

(** What holds whenever the loop is about to run the body at [row], [col]:
    the finished pixels hold their gray value, the other bytes of the gray
    buffer are as they were, and only pixel bytes have been read. *)
Definition loop_inv (colorimg mygrayimg : IplImage) (row col : Z) (st : state) : Prop :=
  length (grayData st) = length (imageData mygrayimg) /\
  (forall r c, finished colorimg row col r c ->
               load (grayData st) (r * widthStep mygrayimg + c)
               = Some (gray_at colorimg r c)) /\
  (forall j, (forall r c, finished colorimg row col r c ->
                          j <> r * widthStep mygrayimg + c) ->
             load (grayData st) j = load (imageData mygrayimg) j) /\
  Forall (read_offset colorimg) (reads st).

End Kernel.

(** ** The kernel of the specification *)

Module Contract.

(** The effect on one pixel, in the words of section 4.2: blue at
    [r * S.stride + c * 3], green and red in the next two bytes, the
    luminance [Y] stored at [r * D.stride + c]. *)
Definition pixel_with (Y : Z -> Z -> Z -> Z) (S D : IplImage) (r c : Z) (dst : list Z)
  : option (list Z) :=
  B ← load (imageData S) (r * widthStep S + c * 3);
  G ← load (imageData S) (r * widthStep S + c * 3 + 1);
  R ← load (imageData S) (r * widthStep S + c * 3 + 2);
  store dst (r * widthStep D + c) (Y R G B).

(** Every pixel coordinate once, rows first. *)
Definition kernel_with (Y : Z -> Z -> Z -> Z) (S D : IplImage) : option (list Z) :=
  for_loop (Z.to_nat (height S)) 0
    (fun r => for_loop (Z.to_nat (width S)) 0 (fun c => pixel_with Y S D r c))
    (imageData D).

(** The reference implementation: exact luminance, truncated. *)
Definition kernel : IplImage -> IplImage -> option (list Z) :=
  kernel_with Luma.contract_luma.

(** A row of [w] pixels holding the pattern [(c, 2c mod 256, 3c mod 256)]. *)
Definition pattern_row (w : nat) : list Z :=
  flat_map (fun n => let c := Z.of_nat n in [c; (2 * c) mod 256; (3 * c) mod 256])
           (seq 0 w).

Definition pattern_image (w : nat) : IplImage :=
  {| width := Z.of_nat w; height := 1; widthStep := 3 * Z.of_nat w;
     imageData := pattern_row w |}.

Definition blank_gray (w : nat) : IplImage :=
  {| width := Z.of_nat w; height := 1; widthStep := Z.of_nat w;
     imageData := repeat 0 w |}.

End Contract.

(** ** The driver *)

Module Driver.

(** What [main] does to the outside world, in program order. *)
Inductive event :=
| Printf (format : string)
| CvtColor (src dst : string)
| NamedWindow (name : string)
| MoveWindow (name : string) (x y : Z)
| ShowImage (name image : string)
| WaitKey
| ReleaseImage (image : string)
| DestroyAllWindows.

(** What the outside world gives [main]: the argument count and the results
    of [cvLoadImage] and of the two calls of [cvCreateImage] ([None] for a
    null pointer). *)
Record world := mkWorld {
  argc : Z;
  cvLoadImage : option IplImage;
  cvCreateImage_gray : option IplImage;
  cvCreateImage_mygray : option IplImage
}.

Definition display : list event :=
  [ NamedWindow "color"; NamedWindow "gray"; NamedWindow "mygray";
    MoveWindow "color" 100 100; MoveWindow "gray" 500 100; MoveWindow "mygray" 500 500;
    ShowImage "color" "colorimg"; ShowImage "gray" "grayimg"; ShowImage "mygray" "grayimg";
    WaitKey;
    ReleaseImage "colorimg"; ReleaseImage "colorimg"; DestroyAllWindows ].

(** [main]: the value it returns and what it did. [None] when the pixel
    loop leaves its buffers. *)
Definition main (w : world) : option (Z * list event) :=
  if argc w <? 2 then
    Some (-1, [Printf "Usage: ./example05 imageName"])
  else
    match cvLoadImage w with
    | None => Some (-1, [Printf "File %s not opened, program ending\n"])
    | Some colorimg =>
      match cvCreateImage_gray w with
      | None =>
          Some (-1, [Printf "No memory allocated for grayimg\n"; ReleaseImage "colorimg"])
      | Some grayimg =>
        match cvCreateImage_mygray w with
        | None =>
            Some (-1, [Printf "No memory allocated for mygrayimg\n";
                       ReleaseImage "colorimg"; ReleaseImage "grayimg"])
        | Some mygrayimg =>
            _ ← Kernel.main_loop colorimg mygrayimg;
            Some (0, [CvtColor "colorimg" "grayimg";
                      Printf "\nImage: %s, height: %d, width: %d, widthStep: %d\n";
                      Printf "colorimg->width * 24: %d bits, widthStep * 8: %d bits\n"]
                     ++ display)
        end
      end
    end.

(** The images the library returns fit together: the colour image is a
    three-channel image and [mygrayimg] has its size. *)
Definition world_ok (w : world) : Prop :=
  forall colorimg mygrayimg,
    cvLoadImage w = Some colorimg ->
    cvCreateImage_mygray w = Some mygrayimg ->
    Kernel.color_ok colorimg /\
    Kernel.gray_ok (width colorimg) (height colorimg) mygrayimg.

Definition success (w : world) : Prop :=
  2 <= argc w /\ is_Some (cvLoadImage w) /\
  is_Some (cvCreateImage_gray w) /\ is_Some (cvCreateImage_mygray w).

End Driver.

(** ** Three sentences of the specification, as they are worded *)

Module Stated.
Import Kernel.

(** The stored byte is the contract's byte or the one below it. *)
Definition within_one (y y' : Z) : Prop := y' - 1 <= y <= y'.

(** "For every source with width 1 the loop produces, for every row, exactly
    the destination byte the contract of section 4.2 requires." *)
Definition width_one_meets_contract : Prop :=
  forall colorimg mygrayimg,
    width colorimg = 1 ->
    color_ok colorimg ->
    gray_ok (width colorimg) (height colorimg) mygrayimg ->
    Forall Luma.is_uchar (imageData colorimg) ->
    main_loop colorimg mygrayimg = Contract.kernel colorimg mygrayimg.

(** "The gray byte the loop stores lies between the minimum and the maximum
    of the three source bytes it read for that pixel." *)
Definition gray_between_samples : Prop :=
  forall colorimg mygrayimg gray row col blue green red y,
    color_ok colorimg ->
    gray_ok (width colorimg) (height colorimg) mygrayimg ->
    Forall Luma.is_uchar (imageData colorimg) ->
    main_loop colorimg mygrayimg = Some gray ->
    0 <= row < height colorimg -> 0 <= col < width colorimg ->
    load (imageData colorimg) (row * widthStep colorimg + col) = Some blue ->
    load (imageData colorimg) (row * widthStep colorimg + col + 1) = Some green ->
    load (imageData colorimg) (row * widthStep colorimg + col + 2) = Some red ->
    load gray (row * widthStep mygrayimg + col) = Some y ->
    Z.min blue (Z.min green red) <= y <= Z.max blue (Z.max green red).

(** "The driver exits with a non-zero status in exactly two failure cases:
    the argument is missing, or the image cannot be opened." *)
Definition two_failure_exits : Prop :=
  forall w status events,
    Driver.world_ok w ->
    Driver.main w = Some (status, events) ->
    (status <> 0 <-> Driver.argc w < 2 \/ Driver.cvLoadImage w = None).

End Stated.

(** ** Small images used as test inputs *)

Module Samples.

(** One row of two pixels, [B G R] each, no padding. *)
Definition two_pixels : IplImage :=
  {| width := 2; height := 1; widthStep := 6; imageData := [10; 20; 30; 40; 50; 60] |}.

Definition gray_two_pixels : IplImage :=
  {| width := 2; height := 1; widthStep := 2; imageData := [0; 0] |}.

(** One pixel with all three samples equal to one. *)
Definition dim_pixel : IplImage :=
  {| width := 1; height := 1; widthStep := 3; imageData := [1; 1; 1] |}.

Definition gray_one_pixel : IplImage :=
  {| width := 1; height := 1; widthStep := 1; imageData := [0] |}.

(** Two rows of one pixel, once with rows three bytes apart and once with
    one byte of padding after each row. *)
Definition column_packed : IplImage :=
  {| width := 1; height := 2; widthStep := 3; imageData := [255; 0; 0; 0; 0; 0] |}.

Definition column_padded : IplImage :=
  {| width := 1; height := 2; widthStep := 4;
     imageData := [255; 0; 0; 99; 0; 0; 0; 77] |}.

Definition black_padded : IplImage :=
  {| width := 1; height := 2; widthStep := 4;
     imageData := [0; 0; 0; 99; 0; 0; 0; 77] |}.

(** Gray images of two rows of one pixel; the second has three bytes of
    padding per row, filled with a canary pattern. *)
Definition gray_column_packed : IplImage :=
  {| width := 1; height := 2; widthStep := 1; imageData := [7; 7] |}.

Definition gray_column_padded : IplImage :=
  {| width := 1; height := 2; widthStep := 4;
     imageData := [7; 171; 172; 173; 7; 175; 176; 177] |}.

(** A run of the driver in which the image loads and the first allocation
    fails. *)
Definition first_allocation_fails : Driver.world :=
  {| Driver.argc := 2;
     Driver.cvLoadImage := Some dim_pixel;
     Driver.cvCreateImage_gray := None;
     Driver.cvCreateImage_mygray := Some gray_one_pixel |}.

(** A run of the driver in which everything succeeds. *)
Definition all_succeeds : Driver.world :=
  {| Driver.argc := 2;
     Driver.cvLoadImage := Some dim_pixel;
     Driver.cvCreateImage_gray := Some gray_one_pixel;
     Driver.cvCreateImage_mygray := Some gray_one_pixel |}.

End Samples.

(** ** Further notions for describing the loop and the driver *)

Module LumaInt.
Import Luma.

(** The gray value of one pixel computed on machine integers: the mantissa
    of the [double] sum shifted right by 53 minus its exponent. *)
Definition luma_int (red green blue : int) : int :=
  let (m, se) := frshiftexp (luma_double red green blue) in
  (normfr_mantissa m >> (2154 - se))%uint63.

(** The exact luminance is a whole number, or the [double] evaluation
    truncates to the same byte as the exact one. *)
Definition exact_off_integers (red green blue : int) : bool :=
  let s := (299 * red + 587 * green + 114 * blue)%uint63 in
  PrimInt63.eqb (PrimInt63.mod s 1000%uint63) 0%uint63
  || PrimInt63.eqb (luma_int red green blue) (PrimInt63.div s 1000%uint63).

(** Raising one of the three samples by one does not lower the gray
    value. *)
Definition step_up_ok (red green blue : int) : bool :=
  let y := luma_int red green blue in
  (PrimInt63.eqb red 255%uint63
   || PrimInt63.leb y (luma_int (red + 1)%uint63 green blue))
  && (PrimInt63.eqb green 255%uint63
      || PrimInt63.leb y (luma_int red (green + 1)%uint63 blue))
  && (PrimInt63.eqb blue 255%uint63
      || PrimInt63.leb y (luma_int red green (blue + 1)%uint63)).

End LumaInt.

Module Trace.

(** The offsets the body reads at [row], [col], in program order. *)
Definition pixel_reads (colorstep row col : Z) : list Z :=
  [row * colorstep + col; row * colorstep + col + 1; row * colorstep + col + 2].

(** The offsets the inner loop reads in one row of [w] pixels. *)
Definition row_reads (colorstep w row : Z) : list Z :=
  flat_map (pixel_reads colorstep row) (seqZ 0 w).

(** The offsets the two loops read, in program order. *)
Definition expected_reads (img : IplImage) : list Z :=
  flat_map (row_reads (widthStep img) (width img)) (seqZ 0 (height img)).

(** An offset inside a buffer. *)
Definition inside (data : list Z) (i : Z) : Prop := 0 <= i < Z.of_nat (length data).

(** An image header with another pixel buffer. *)
Definition with_data (img : IplImage) (data : list Z) : IplImage :=
  {| width := width img; height := height img; widthStep := widthStep img;
     imageData := data |}.

End Trace.

Module DriverLog.
Import Driver.

(** The images [main] released, in order. *)
Definition released (events : list event) : list string :=
  omap (fun e => match e with ReleaseImage image => Some image | _ => None end) events.

(** The window and image of every [cvShowImage] call, in order. *)
Definition shown (events : list event) : list (string * string) :=
  omap (fun e => match e with ShowImage name image => Some (name, image) | _ => None end)
       events.

(** The messages [main] printed, in order. *)
Definition printed (events : list event) : list string :=
  omap (fun e => match e with Printf format => Some format | _ => None end) events.

End DriverLog.

Module MoreSamples.

(** [Samples.two_pixels] with the last two bytes of its row changed. *)
Definition two_pixels_tail_changed : IplImage :=
  {| width := 2; height := 1; widthStep := 6; imageData := [10; 20; 30; 40; 0; 255] |}.

(** An image header with no rows and an empty buffer. *)
Definition no_rows : IplImage :=
  {| width := 4; height := 0; widthStep := 12; imageData := [] |}.

(** Two rows of two pixels whose last row is cut after four bytes. *)
Definition short_last_row : IplImage :=
  {| width := 2; height := 2; widthStep := 6;
     imageData := [1; 2; 3; 4; 5; 6; 7; 8; 9; 10] |}.

Definition gray_two_by_two : IplImage :=
  {| width := 2; height := 2; widthStep := 2; imageData := [0; 0; 0; 0] |}.

(** One row of one pixel, every byte 128. *)
Definition mid_gray : IplImage :=
  {| width := 1; height := 1; widthStep := 3; imageData := [128; 128; 128] |}.

(** Runs of the driver in which the image loads and the second allocation
    fails, or the first does. *)
Definition second_allocation_fails : Driver.world :=
  {| Driver.argc := 2;
     Driver.cvLoadImage := Some Samples.dim_pixel;
     Driver.cvCreateImage_gray := Some Samples.gray_one_pixel;
     Driver.cvCreateImage_mygray := None |}.

End MoreSamples.

Module LumaFacts.
Import Luma.

(** The three weights as binary64 numbers: none of 0.299, 0.587, 0.114 is
    a binary fraction, so each is replaced by the nearest [double]. *)
#[warnings="-inexact-float"]
Lemma weights_as_doubles :
  Prim2SF 0.299 = S754_finite false 5386305154335113 (-54) /\
  Prim2SF 0.587 = S754_finite false 5287225962532962 (-53) /\
  Prim2SF 0.114 = S754_finite false 8214565720323785 (-56).
Proof. vm_compute. repeat split; reflexivity. Qed.

(** The exact sum of the three [double] weights is [1 - 3 / 2^56]: the
    weights the program multiplies by do not sum to one. *)
Lemma weights_sum_below_one :
  5386305154335113 * 2 ^ 2 + 5287225962532962 * 2 ^ 3 + 8214565720323785 = 2 ^ 56 - 3.
Proof. reflexivity. Qed.

Lemma luma_1_1_1 : luma 1 1 1 = 0.
Proof. vm_compute. reflexivity. Qed.

Lemma luma_30_20_10 : luma 30 20 10 = 21.
Proof. vm_compute. reflexivity. Qed.

Lemma luma_0_0_0 : luma 0 0 0 = 0.
Proof. vm_compute. reflexivity. Qed.

(** [trunc_double] discards the fraction, toward zero. *)
Lemma trunc_double_samples :
  trunc_double 21.875 = 21 /\ trunc_double (-3.75) = -3 /\ trunc_double 0.5 = 0 /\
  trunc_double 255 = 255 /\ trunc_double 0 = 0 /\
  trunc_double 1e20 = 100000000000000000000.
Proof. vm_compute. repeat split; reflexivity. Qed.

Lemma uchars_spec z : is_uchar z -> In (Uint63.of_Z z) uchars.
Proof.
  intros Hz.
  assert (E : uchars = map (fun n => Uint63.of_Z (Z.of_nat n)) (seq 0 256))
    by (vm_compute; reflexivity).
  rewrite E. apply in_map_iff. exists (Z.to_nat z). split.
  - f_equal. unfold is_uchar in Hz. lia.
  - apply in_seq. unfold is_uchar in Hz. lia.
Qed.

Lemma near_contract_all : near_contract_everywhere = true.
Proof. vm_compute. reflexivity. Qed.

Lemma near_contract_sound r g b :
  0 <= Uint63.to_Z r < 256 -> 0 <= Uint63.to_Z g < 256 -> 0 <= Uint63.to_Z b < 256 ->
  near_contract r g b = true ->
  contract_luma (Uint63.to_Z r) (Uint63.to_Z g) (Uint63.to_Z b) - 1
    <= luma (Uint63.to_Z r) (Uint63.to_Z g) (Uint63.to_Z b)
    <= contract_luma (Uint63.to_Z r) (Uint63.to_Z g) (Uint63.to_Z b).
Proof.
  intros Hr Hg Hb. unfold near_contract, luma, uchar_to_double, luma_double.
  rewrite !Uint63.of_to_Z.
  set (y := (_ + _)%float). unfold trunc_double, FloatOps.Z.frexp.
  destruct (frshiftexp y) as [m se].
  intros H. apply andb_prop in H as [H H4]. apply andb_prop in H as [H H3].
  apply andb_prop in H as [H1 H2].
  apply negb_true_iff in H1. rewrite H1.
  apply Uint63.leb_spec in H2, H3, H4.
  assert (Ew : wB = 9223372036854775808) by reflexivity.
  assert (E2154 : Uint63.to_Z 2154 = 2154) by reflexivity.
  assert (Eexact : Uint63.to_Z ((299 * r + 587 * g + 114 * b) / 1000)
                   = contract_luma (Uint63.to_Z r) (Uint63.to_Z g) (Uint63.to_Z b)).
  { unfold contract_luma. rewrite Z.quot_div_nonneg by lia.
    rewrite Uint63.div_spec, !Uint63.add_spec, !Uint63.mul_spec.
    change (Uint63.to_Z 299) with 299. change (Uint63.to_Z 587) with 587.
    change (Uint63.to_Z 114) with 114. change (Uint63.to_Z 1000) with 1000.
    rewrite (Z.mod_small (299 * _)), (Z.mod_small (587 * _)), (Z.mod_small (114 * _)) by lia.
    rewrite (Z.mod_small (299 * _ + 587 * _)) by lia.
    rewrite Z.mod_small by lia. reflexivity. }
  assert (Egray : Uint63.to_Z (normfr_mantissa m >> (2154 - se))
                  = Z.shiftr (Uint63.to_Z (normfr_mantissa m))
                             (prec - (Uint63.to_Z se - FloatOps.shift))).
  { rewrite Uint63.lsr_spec, Uint63.sub_spec, E2154.
    pose proof (Uint63.to_Z_bounded se).
    rewrite Z.mod_small by lia.
    rewrite Z.shiftr_div_pow2 by (unfold prec, FloatOps.shift; lia).
    do 2 f_equal. unfold prec, FloatOps.shift. lia. }
  rewrite Eexact in H3, H4. rewrite Egray in H4.
  rewrite Uint63.add_spec, Egray in H3. change (Uint63.to_Z 1) with 1 in H3.
  assert (contract_luma (Uint63.to_Z r) (Uint63.to_Z g) (Uint63.to_Z b) < 256).
  { unfold contract_luma. apply Z.quot_lt_upper_bound; lia. }
  pose proof (Z.shiftr_nonneg (Uint63.to_Z (normfr_mantissa m))
                (prec - (Uint63.to_Z se - FloatOps.shift))) as Hnn.
  pose proof (Uint63.to_Z_bounded (normfr_mantissa m)).
  rewrite Z.mod_small in H3 by lia. lia.
Qed.

(** The exhaustive check again, with the three loops written out. *)
Lemma near_contract_forall :
  forallb (fun r => forallb (fun g => forallb (fun b => near_contract r g b)
                                               uchars) uchars) uchars = true.
Proof. vm_compute. reflexivity. Qed.

Lemma luma_near_contract red green blue :
  is_uchar red -> is_uchar green -> is_uchar blue ->
  contract_luma red green blue - 1 <= luma red green blue <= contract_luma red green blue.
Proof.
  intros Hr Hg Hb.
  pose proof near_contract_forall as H.
  rewrite forallb_forall in H.
  specialize (H _ (uchars_spec _ Hr)). rewrite forallb_forall in H.
  specialize (H _ (uchars_spec _ Hg)). rewrite forallb_forall in H.
  specialize (H _ (uchars_spec _ Hb)).
  unfold is_uchar in *.
  assert (Ew : wB = 9223372036854775808) by reflexivity.
  apply near_contract_sound in H; rewrite ?Uint63.of_Z_spec, ?Z.mod_small in * by lia;
    try lia.
Qed.

Lemma contract_luma_between R G B :
  0 <= R -> 0 <= G -> 0 <= B ->
  Z.min R (Z.min G B) <= contract_luma R G B <= Z.max R (Z.max G B).
Proof.
  intros HR HG HB. unfold contract_luma. split.
  - apply Z.quot_le_lower_bound; lia.
  - apply Z.quot_le_upper_bound; lia.
Qed.

End LumaFacts.

(** ** Buffers and counted loops *)

Section Memory.

Lemma load_Some data i v :
  load data i = Some v <-> 0 <= i /\ data !! Z.to_nat i = Some v.
Proof.
  unfold load. destruct (decide (0 <= i)); split; intros H.
  - split; assumption.
  - apply H.
  - discriminate.
  - destruct H; contradiction.
Qed.

Lemma load_inside data i :
  0 <= i < Z.of_nat (length data) -> load data i = Some (Kernel.byte_at data i).
Proof.
  intros Hi. unfold Kernel.byte_at.
  destruct (load data i) as [v|] eqn:E; [reflexivity|].
  exfalso. unfold load in E. destruct (decide (0 <= i)); [|lia].
  apply lookup_ge_None in E. lia.
Qed.

Lemma load_byte_at data i v : load data i = Some v -> Kernel.byte_at data i = v.
Proof. intros H. unfold Kernel.byte_at. rewrite H. reflexivity. Qed.

Lemma load_elem data i v : load data i = Some v -> In v data.
Proof.
  intros H. apply load_Some in H as [_ H].
  apply list_elem_of_In. apply list_elem_of_lookup. eauto.
Qed.

Lemma store_inside data i v :
  0 <= i < Z.of_nat (length data) -> store data i v = Some (<[Z.to_nat i := v]> data).
Proof. intros Hi. unfold store. destruct (decide _); [reflexivity | contradiction]. Qed.

Lemma store_Some data i v data' :
  store data i v = Some data' ->
  0 <= i < Z.of_nat (length data) /\ data' = <[Z.to_nat i := v]> data.
Proof.
  unfold store. destruct (decide _) as [Hi|]; [|discriminate].
  intros [= <-]. split; [exact Hi | reflexivity].
Qed.

Lemma store_length data i v data' :
  store data i v = Some data' -> length data' = length data.
Proof. intros H. apply store_Some in H as [_ ->]. apply length_insert. Qed.

Lemma load_store_eq data i v data' :
  store data i v = Some data' -> load data' i = Some v.
Proof.
  intros H. apply store_Some in H as [Hi ->]. apply load_Some. split; [lia|].
  apply list_lookup_insert_eq. lia.
Qed.

Lemma load_store_ne data i v data' j :
  store data i v = Some data' -> j <> i -> load data' j = load data j.
Proof.
  intros H Hne. apply store_Some in H as [Hi ->]. unfold load.
  destruct (decide (0 <= j)); [|reflexivity].
  apply list_lookup_insert_ne. lia.
Qed.

End Memory.

Section Loops.
Context {A : Type}.

(** An invariant that every trip of the loop keeps holds when the loop is
    left, and the loop does not fail. *)
Lemma for_loop_invariant (P : Z -> A -> Prop) (body : Z -> A -> option A) trips :
  forall i0 a,
    P i0 a ->
    (forall i a, i0 <= i < i0 + Z.of_nat trips -> P i a ->
                 exists a', body i a = Some a' /\ P (i + 1) a') ->
    exists a', for_loop trips i0 body a = Some a' /\ P (i0 + Z.of_nat trips) a'.
Proof.
  induction trips as [|n IH]; intros i0 a H0 Hstep.
  - exists a. split; [reflexivity|]. replace (i0 + Z.of_nat 0) with i0 by lia. exact H0.
  - destruct (Hstep i0 a ltac:(lia) H0) as (a1 & E1 & H1).
    destruct (IH (i0 + 1) a1 H1) as (a2 & E2 & H2).
    { intros i a' Hi. apply Hstep. lia. }
    exists a2. split.
    + cbn [for_loop]. rewrite E1. exact E2.
    + replace (i0 + Z.of_nat (S n)) with (i0 + 1 + Z.of_nat n) by lia. exact H2.
Qed.

(** Two loops whose bodies keep a relation between their states, and fail
    together, end in related states or fail together. *)
Lemma for_loop_related {B : Type} (R : A -> B -> Prop)
      (f : Z -> A -> option A) (g : Z -> B -> option B) trips :
  forall i0 a b,
    R a b ->
    (forall i a b, i0 <= i < i0 + Z.of_nat trips -> R a b ->
                   option_Forall2 R (f i a) (g i b)) ->
    option_Forall2 R (for_loop trips i0 f a) (for_loop trips i0 g b).
Proof.
  induction trips as [|n IH]; intros i0 a b Hab Hstep.
  - constructor. exact Hab.
  - cbn [for_loop].
    destruct (Hstep i0 a b ltac:(lia) Hab) as [a1 b1 H1|]; cbn.
    + apply IH; [exact H1|]. intros i a' b' Hi. apply Hstep. lia.
    + constructor.
Qed.

End Loops.

(** ** The conversion loop, pixel by pixel *)

Module KernelFacts.
Import Kernel.

Lemma step_of_uchars z : Z.quot z sizeof_uchar = z.
Proof. unfold sizeof_uchar. apply Z.quot_1_r. Qed.

Lemma row_fits row step bound :
  0 <= row < bound -> 0 <= step -> row * step + step <= bound * step.
Proof. intros. nia. Qed.

Section Invariant.
Variables colorimg mygrayimg : IplImage.
Hypothesis Hcolor : color_ok colorimg.
Hypothesis Hgray : gray_ok (width colorimg) (height colorimg) mygrayimg.

Local Abbreviation w := (width colorimg).
Local Abbreviation h := (height colorimg).
Local Abbreviation cs := (widthStep colorimg).
Local Abbreviation gs := (widthStep mygrayimg).
Local Abbreviation finished := (Kernel.finished colorimg).
Local Abbreviation loop_inv := (Kernel.loop_inv colorimg mygrayimg).

Lemma offsets_apart r c row col :
  0 <= r -> 0 <= c < w -> 0 <= col < w -> w <= gs ->
  r < row \/ (r = row /\ c < col) ->
  r * gs + c <> row * gs + col.
Proof.
  intros Hr Hc Hcol Hgs [Hlt | [-> Hlt]]; [|lia].
  pose proof (row_fits r gs row ltac:(lia) ltac:(lia)). lia.
Qed.

Lemma pixel_keeps_inv row col st :
  0 <= row < h -> 0 <= col < w ->
  loop_inv row col st ->
  exists st', pixel (imageData colorimg) cs gs row col st = Some st' /\
              loop_inv row (col + 1) st'.
Proof.
  intros Hrow Hcol (Hlen & Hdone & Hrest & Hreads).
  destruct Hcolor as (Hw & Hh & Hcs & Hsrc).
  destruct Hgray as (_ & _ & Hgs & Hdst).
  pose proof (row_fits row cs h Hrow ltac:(lia)) as Hfit.
  pose proof (row_fits row gs h Hrow ltac:(lia)) as Hfit'.
  assert (0 <= row * cs) by nia. assert (0 <= row * gs) by nia.
  unfold pixel.
  rewrite (load_inside _ (row * cs + col)) by lia.
  rewrite (load_inside _ (row * cs + col + 1)) by lia.
  rewrite (load_inside _ (row * cs + col + 2)) by lia.
  cbn [mbind option_bind].
  rewrite store_inside by lia. cbn [mbind option_bind].
  eexists. split; [reflexivity|].
  assert (Hst : store (grayData st) (row * gs + col)
                      (gray_at colorimg row col)
                = Some (<[Z.to_nat (row * gs + col) := gray_at colorimg row col]>
                          (grayData st)))
    by (apply store_inside; lia).
  unfold gray_at in Hst.
  split; [|split; [|split]]; cbn [grayData reads].
  - rewrite length_insert. exact Hlen.
  - intros r c (Hc & Hr & Hwhere).
    destruct (decide (r = row /\ c = col)) as [[-> ->] | Hne].
    + rewrite (load_store_eq _ _ _ _ Hst). reflexivity.
    + assert (Hbefore : r < row \/ (r = row /\ c < col)) by lia.
      rewrite (load_store_ne _ _ _ _ _ Hst)
        by (apply offsets_apart; assumption || lia).
      apply Hdone. unfold Kernel.finished. auto.
  - intros j Hj.
    rewrite (load_store_ne _ _ _ _ _ Hst).
    + apply Hrest. intros r c (Hc & Hr & Hwhere). apply Hj. unfold Kernel.finished.
      split; [assumption|]. split; [assumption|]. lia.
    + apply Hj. unfold Kernel.finished. lia.
  - apply Forall_app. split; [exact Hreads|].
    repeat constructor; exists row, col.
    + exists 0. lia.
    + exists 1. lia.
    + exists 2. lia.
Qed.

Lemma row_keeps_inv row st :
  0 <= row < h ->
  loop_inv row 0 st ->
  exists st',
    for_loop (Z.to_nat w) 0 (fun col => pixel (imageData colorimg) cs gs row col) st
      = Some st' /\
    loop_inv (row + 1) 0 st'.
Proof.
  intros Hrow Hinv.
  assert (Hw : 0 <= w) by apply Hcolor.
  destruct (for_loop_invariant (fun col st => loop_inv row col st)
              (fun col => pixel (imageData colorimg) cs gs row col)
              (Z.to_nat w) 0 st Hinv) as (st' & E & Hend).
  { intros col st1 Hcol. apply pixel_keeps_inv; [exact Hrow | lia]. }
  exists st'. split; [exact E|].
  rewrite Z2Nat.id, Z.add_0_l in Hend by exact Hw.
  destruct Hend as (Hlen & Hdone & Hrest & Hreads).
  split; [exact Hlen|]. split; [|split; [|exact Hreads]].
  - intros r c (Hc & Hr & Hwhere). apply Hdone. unfold Kernel.finished. lia.
  - intros j Hj. apply Hrest. intros r c (Hc & Hr & Hwhere). apply Hj.
    unfold Kernel.finished. lia.
Qed.

Lemma loop_inv_start :
  loop_inv 0 0 {| grayData := imageData mygrayimg; reads := [] |}.
Proof.
  split; [reflexivity|]. split; [|split].
  - intros r c (Hc & Hr & Hwhere). lia.
  - reflexivity.
  - constructor.
Qed.

Lemma main_loop_state_inv :
  exists st, main_loop_state colorimg mygrayimg = Some st /\ loop_inv h 0 st.
Proof.
  assert (Hh : 0 <= h) by apply Hcolor.
  unfold main_loop_state. rewrite !step_of_uchars.
  destruct (for_loop_invariant (fun row st => loop_inv row 0 st)
              (fun row => for_loop (Z.to_nat w) 0
                            (fun col => pixel (imageData colorimg) cs gs row col))
              (Z.to_nat h) 0 _ loop_inv_start) as (st & E & Hend).
  { intros row st1 Hrow. apply row_keeps_inv. lia. }
  exists st. split; [exact E|].
  rewrite Z2Nat.id, Z.add_0_l in Hend by exact Hh. exact Hend.
Qed.

End Invariant.

(** What the loop leaves behind, for images that fit together. *)
Lemma main_loop_state_spec colorimg mygrayimg :
  color_ok colorimg ->
  gray_ok (width colorimg) (height colorimg) mygrayimg ->
  exists st,
    main_loop_state colorimg mygrayimg = Some st /\
    length (grayData st) = length (imageData mygrayimg) /\
    (forall r c, 0 <= r < height colorimg -> 0 <= c < width colorimg ->
                 load (grayData st) (r * widthStep mygrayimg + c)
                 = Some (gray_at colorimg r c)) /\
    (forall j, ~ useful_offset (width colorimg) (height colorimg) mygrayimg j ->
               load (grayData st) j = load (imageData mygrayimg) j) /\
    Forall (read_offset colorimg) (reads st).
Proof.
  intros Hc Hg.
  destruct (main_loop_state_inv colorimg mygrayimg Hc Hg)
    as (st & E & Hlen & Hdone & Hrest & Hreads).
  exists st. split; [exact E|]. split; [exact Hlen|]. split; [|split; [|exact Hreads]].
  - intros r c Hr Hcol. apply Hdone. unfold Kernel.finished. lia.
  - intros j Hj. apply Hrest. intros r c (Hcol & Hr & Hwhere) ->.
    apply Hj. exists r, c. lia.
Qed.

Lemma main_loop_spec colorimg mygrayimg :
  color_ok colorimg ->
  gray_ok (width colorimg) (height colorimg) mygrayimg ->
  exists gray,
    main_loop colorimg mygrayimg = Some gray /\
    length gray = length (imageData mygrayimg) /\
    (forall r c, 0 <= r < height colorimg -> 0 <= c < width colorimg ->
                 load gray (r * widthStep mygrayimg + c) = Some (gray_at colorimg r c)) /\
    (forall j, ~ useful_offset (width colorimg) (height colorimg) mygrayimg j ->
               load gray j = load (imageData mygrayimg) j).
Proof.
  intros Hc Hg.
  destruct (main_loop_state_spec colorimg mygrayimg Hc Hg)
    as (st & E & Hlen & Hdone & Hrest & _).
  exists (grayData st). unfold main_loop. rewrite E. auto.
Qed.

(** The three bytes the body reads at a pixel of a fitting image are pixel
    bytes of its row, so they are inside the buffer. *)
Lemma pixel_bytes_inside img r k :
  color_ok img -> 0 <= r < height img -> 0 <= k < 3 * width img ->
  0 <= r * widthStep img + k < Z.of_nat (length (imageData img)).
Proof.
  intros (Hw & Hh & Hcs & Hsrc) Hr Hk.
  pose proof (row_fits r (widthStep img) (height img) Hr ltac:(lia)).
  assert (0 <= r * widthStep img) by nia. lia.
Qed.

(** An offset the body reads is a pixel byte of its row. *)
Lemma read_offset_pixel img i : read_offset img i -> pixel_offset img i.
Proof.
  intros (row & col & k & Hrow & Hcol & Hk & ->).
  exists row, (col + k). split; [exact Hrow|]. split; lia.
Qed.

(** With rows at least [3 * width] bytes apart, no offset is both a pixel
    byte and a padding byte. *)
Lemma pixel_not_padding img i :
  0 <= width img -> pixel_offset img i -> padding_offset img i -> False.
Proof.
  intros Hw (r1 & k1 & Hr1 & Hk1 & ->) (r2 & k2 & Hr2 & Hk2 & E).
  assert (Hcs : 0 <= widthStep img) by lia.
  destruct (Z.lt_trichotomy r1 r2) as [Hlt | [-> | Hgt]].
  - pose proof (row_fits r1 (widthStep img) r2 ltac:(lia) Hcs). lia.
  - lia.
  - pose proof (row_fits r2 (widthStep img) r1 ltac:(lia) Hcs). lia.
Qed.

End KernelFacts.

(** ** The loop against the kernel of the specification *)

Module ContractFacts.
Import Kernel.

(** With one pixel per row the body reads where the contract reads, so the
    loop is the contract's kernel with the luminance evaluated in [double]. *)
Lemma pixel_first_column colorimg mygrayimg row st :
  option_Forall2 (fun st dst => grayData st = dst)
    (pixel (imageData colorimg) (widthStep colorimg) (widthStep mygrayimg) row 0 st)
    (Contract.pixel_with Luma.luma colorimg mygrayimg row 0 (grayData st)).
Proof.
  unfold pixel, Contract.pixel_with.
  change (0 * 3) with 0. rewrite !Z.add_0_r.
  destruct (load (imageData colorimg) (row * widthStep colorimg)) as [blue|];
    cbn; [|constructor].
  destruct (load (imageData colorimg) (row * widthStep colorimg + 1)) as [green|];
    cbn; [|constructor].
  destruct (load (imageData colorimg) (row * widthStep colorimg + 2)) as [red|];
    cbn; [|constructor].
  destruct (store (grayData st) (row * widthStep mygrayimg) (Luma.luma red green blue));
    cbn; constructor. reflexivity.
Qed.

Lemma main_loop_width_one colorimg mygrayimg :
  width colorimg = 1 ->
  main_loop colorimg mygrayimg = Contract.kernel_with Luma.luma colorimg mygrayimg.
Proof.
  intros Hw.
  assert (H : option_Forall2 (fun st dst => grayData st = dst)
                (main_loop_state colorimg mygrayimg)
                (Contract.kernel_with Luma.luma colorimg mygrayimg)).
  { unfold main_loop_state, Contract.kernel_with.
    rewrite !KernelFacts.step_of_uchars, Hw.
    apply for_loop_related; [reflexivity|].
    intros row st dst _ <-. change (Z.to_nat 1) with 1%nat. cbn [for_loop].
    destruct (pixel_first_column colorimg mygrayimg row st) as [st' dst' E|];
      cbn; constructor. exact E. }
  unfold main_loop. destruct H as [st dst E|]; cbn; [rewrite E|]; reflexivity.
Qed.

(** Two luminance functions that stay within one of each other on bytes
    give destinations that stay within one of each other, byte by byte. *)
Lemma kernel_with_within_one (Y Y' : Z -> Z -> Z -> Z) S D :
  (forall R G B, Luma.is_uchar R -> Luma.is_uchar G -> Luma.is_uchar B ->
                 Stated.within_one (Y R G B) (Y' R G B)) ->
  Forall Luma.is_uchar (imageData S) ->
  option_Forall2 (Forall2 Stated.within_one)
    (Contract.kernel_with Y S D) (Contract.kernel_with Y' S D).
Proof.
  intros Hnear Hbytes.
  assert (Hin : forall i v, load (imageData S) i = Some v -> Luma.is_uchar v).
  { intros i v Hv. rewrite Forall_forall in Hbytes. apply Hbytes.
    apply list_elem_of_In. exact (load_elem _ _ _ Hv). }
  unfold Contract.kernel_with.
  apply for_loop_related.
  { apply Forall_Forall2_diag. apply Forall_forall. intros y _.
    unfold Stated.within_one. lia. }
  intros r d d' _ Hdd. apply for_loop_related; [exact Hdd|].
  clear d d' Hdd. intros c d d' _ Hdd. unfold Contract.pixel_with.
  destruct (load (imageData S) (r * widthStep S + c * 3)) as [B|] eqn:EB;
    cbn; [|constructor].
  destruct (load (imageData S) (r * widthStep S + c * 3 + 1)) as [G|] eqn:EG;
    cbn; [|constructor].
  destruct (load (imageData S) (r * widthStep S + c * 3 + 2)) as [R|] eqn:ER;
    cbn; [|constructor].
  unfold store. rewrite <- (Forall2_length _ _ _ Hdd).
  destruct (decide _); constructor.
  apply Forall2_insert; [exact Hdd|]. apply Hnear; eauto.
Qed.

End ContractFacts.

(** ** The claims *)

Import Kernel.

(** C1 (the code departs from the claim). The claim reads pixel [(r, c)] at
    offsets [r * stride + 3 c], [+ 1], [+ 2]. On a row of two pixels the loop
    reads the second pixel at offsets 1, 2, 3 instead of 3, 4, 5 and stores
    31 where the bytes the claim names give 51. *)
Theorem C1_second_pixel_read_at_wrong_offsets :
  main_loop_state Samples.two_pixels Samples.gray_two_pixels
    = Some {| grayData := [21; 31]; reads := [0; 1; 2; 1; 2; 3] |} /\
  Luma.luma 60 50 40 = 51 /\
  Contract.kernel Samples.two_pixels Samples.gray_two_pixels = Some [21; 51].
Proof. vm_compute. repeat split; reflexivity. Qed.

(** C2 (the code departs from the claim). On a row of the pattern
    [(c, 2c mod 256, 3c mod 256)] the loop agrees with the reference kernel of
    section 4.2 for width 1 and differs from it for widths 2, 15, 16, 17 and
    640; for width 2 it stores [0; 0] where the reference stores [0; 2]. *)
Theorem C2_pattern_rows_differ_from_reference :
  main_loop (Contract.pattern_image 2) (Contract.blank_gray 2) = Some [0; 0] /\
  Contract.kernel (Contract.pattern_image 2) (Contract.blank_gray 2) = Some [0; 2] /\
  map (fun w => bool_decide (main_loop (Contract.pattern_image w) (Contract.blank_gray w)
                             = Contract.kernel (Contract.pattern_image w)
                                               (Contract.blank_gray w)))
      [1; 2; 15; 16; 17; 640]%nat
  = [true; false; false; false; false; false].
Proof. vm_compute. repeat split; reflexivity. Qed.

(** C3. Two colour images with the same pixel bytes, whatever their row
    strides and padding bytes, give gray images with the same bytes in the
    [width] useful columns of every row. *)
Theorem C3_stride_independence c1 c2 g1 g2 :
  color_ok c1 -> color_ok c2 ->
  width c1 = width c2 -> height c1 = height c2 ->
  gray_ok (width c1) (height c1) g1 ->
  gray_ok (width c2) (height c2) g2 ->
  (forall r k, 0 <= r < height c1 -> 0 <= k < 3 * width c1 ->
               load (imageData c1) (r * widthStep c1 + k)
               = load (imageData c2) (r * widthStep c2 + k)) ->
  exists d1 d2,
    main_loop c1 g1 = Some d1 /\ main_loop c2 g2 = Some d2 /\
    forall r c, 0 <= r < height c1 -> 0 <= c < width c1 ->
                load d1 (r * widthStep g1 + c) = load d2 (r * widthStep g2 + c).
Proof.
  intros Hc1 Hc2 Hw Hh Hg1 Hg2 Hsame.
  destruct (KernelFacts.main_loop_spec c1 g1 Hc1 Hg1) as (d1 & E1 & _ & Hd1 & _).
  destruct (KernelFacts.main_loop_spec c2 g2 Hc2 Hg2) as (d2 & E2 & _ & Hd2 & _).
  exists d1, d2. split; [exact E1|]. split; [exact E2|].
  intros r c Hr Hc. rewrite Hd1 by assumption. rewrite Hd2 by lia.
  f_equal. unfold gray_at, byte_at.
  rewrite <- !Z.add_assoc.
  rewrite (Hsame r (c + 2)), (Hsame r (c + 1)), (Hsame r c) by lia.
  reflexivity.
Qed.

Lemma C3_stride_independence_witness :
  exists d1 d2,
    main_loop Samples.column_packed Samples.gray_column_packed = Some d1 /\
    main_loop Samples.column_padded Samples.gray_column_padded = Some d2 /\
    forall r c, 0 <= r < 2 -> 0 <= c < 1 ->
                load d1 (r * 1 + c) = load d2 (r * 4 + c).
Proof.
  apply (C3_stride_independence Samples.column_packed Samples.column_padded
           Samples.gray_column_packed Samples.gray_column_padded).
  - unfold color_ok. cbn. lia.
  - unfold color_ok. cbn. lia.
  - reflexivity.
  - reflexivity.
  - unfold gray_ok. cbn. lia.
  - unfold gray_ok. cbn. lia.
  - cbn [Samples.column_packed Samples.column_padded width height widthStep imageData].
    intros r k Hr Hk.
    assert (Er : r = 0 \/ r = 1) by lia. assert (Ek : k = 0 \/ k = 1 \/ k = 2) by lia.
    destruct Er as [-> | ->]; destruct Ek as [-> | [-> | ->]]; reflexivity.
Defined.

(** C4. Every byte of the gray buffer outside the useful [width] by
    [height] region has the value it had before the loop. *)
Theorem C4_padding_untouched colorimg mygrayimg :
  color_ok colorimg ->
  gray_ok (width colorimg) (height colorimg) mygrayimg ->
  exists gray,
    main_loop colorimg mygrayimg = Some gray /\
    length gray = length (imageData mygrayimg) /\
    forall j, ~ useful_offset (width colorimg) (height colorimg) mygrayimg j ->
              load gray j = load (imageData mygrayimg) j.
Proof.
  intros Hc Hg.
  destruct (KernelFacts.main_loop_spec colorimg mygrayimg Hc Hg)
    as (gray & E & Hlen & _ & Hrest).
  exists gray. auto.
Qed.

Lemma C4_padding_untouched_witness :
  exists gray,
    main_loop Samples.column_padded Samples.gray_column_padded = Some gray /\
    length gray = 8%nat /\
    forall j, ~ useful_offset 1 2 Samples.gray_column_padded j ->
              load gray j = load [7; 171; 172; 173; 7; 175; 176; 177] j.
Proof.
  apply (C4_padding_untouched Samples.column_padded Samples.gray_column_padded).
  - unfold color_ok. cbn. lia.
  - unfold gray_ok. cbn. lia.
Defined.

(** C5. A 1 by 1 image holding the bytes 10, 20, 30 (blue, green, red)
    gives the single gray byte 21, whatever follows the pixel in its row and
    whatever the gray byte held before; 21 is also the truncation of
    0.299 * 30 + 0.587 * 20 + 0.114 * 10 = 21.89. *)
Theorem C5_single_pixel (padding : list Z) (before : Z) :
  main_loop {| width := 1; height := 1;
               widthStep := 3 + Z.of_nat (length padding);
               imageData := [10; 20; 30] ++ padding |}
            {| width := 1; height := 1; widthStep := 1; imageData := [before] |}
    = Some [21] /\
  Luma.contract_luma 30 20 10 = 21.
Proof. split; vm_compute; reflexivity. Qed.

(** C6. When every pixel byte of the colour image is zero, whatever its row
    stride and padding bytes, every byte of the useful region of the gray
    image is zero after the loop. *)
Theorem C6_all_zero colorimg mygrayimg :
  color_ok colorimg ->
  gray_ok (width colorimg) (height colorimg) mygrayimg ->
  0 < width colorimg -> 0 < height colorimg ->
  (forall r k, 0 <= r < height colorimg -> 0 <= k < 3 * width colorimg ->
               load (imageData colorimg) (r * widthStep colorimg + k) = Some 0) ->
  exists gray,
    main_loop colorimg mygrayimg = Some gray /\
    forall r c, 0 <= r < height colorimg -> 0 <= c < width colorimg ->
                load gray (r * widthStep mygrayimg + c) = Some 0.
Proof.
  intros Hc Hg Hw Hh Hzero.
  destruct (KernelFacts.main_loop_spec colorimg mygrayimg Hc Hg)
    as (gray & E & _ & Hdone & _).
  exists gray. split; [exact E|].
  intros r c Hr Hcol. rewrite Hdone by assumption. f_equal.
  unfold gray_at, byte_at. rewrite <- !Z.add_assoc.
  rewrite (Hzero r (c + 2)), (Hzero r (c + 1)), (Hzero r c) by lia.
  vm_compute. reflexivity.
Qed.

Lemma C6_all_zero_witness :
  exists gray,
    main_loop Samples.black_padded Samples.gray_column_padded = Some gray /\
    forall r c, 0 <= r < 2 -> 0 <= c < 1 -> load gray (r * 4 + c) = Some 0.
Proof.
  apply (C6_all_zero Samples.black_padded Samples.gray_column_padded).
  - unfold color_ok. cbn. lia.
  - unfold gray_ok. cbn. lia.
  - cbn. lia.
  - cbn. lia.
  - cbn [Samples.black_padded width height widthStep imageData].
    intros r k Hr Hk.
    assert (Er : r = 0 \/ r = 1) by lia. assert (Ek : k = 0 \/ k = 1 \/ k = 2) by lia.
    destruct Er as [-> | ->]; destruct Ek as [-> | [-> | ->]]; reflexivity.
Defined.

(** C7, as worded, fails: when the image loads and the first allocation
    fails, [main] returns -1 although the argument is there and the image
    was opened. *)
Lemma C7_counterexample : ~ Stated.two_failure_exits.
Proof.
  intros H.
  specialize (H Samples.first_allocation_fails (-1)
                [Driver.Printf "No memory allocated for grayimg\n";
                 Driver.ReleaseImage "colorimg"]).
  destruct H as [H _].
  - intros colorimg mygrayimg [= <-] [= <-].
    split; [unfold color_ok | unfold gray_ok]; cbn; lia.
  - reflexivity.
  - destruct (H ltac:(discriminate)) as [Hargc | Hload].
    + cbn in Hargc. lia.
    + discriminate Hload.
Qed.

(** C7, amended. [main] returns 0 when the argument is there, the image
    loads and both allocations succeed, and -1 in exactly four other cases:
    the argument is missing (after the usage message), the image does not
    load (after the failure message), or one of the two allocations fails
    (after a message and the release of what was acquired before). *)
Theorem C7_exit_status w :
  Driver.world_ok w ->
  exists status events,
    Driver.main w = Some (status, events) /\
    (status = 0 <-> Driver.success w) /\
    (status <> 0 <->
       Driver.argc w < 2 \/ Driver.cvLoadImage w = None \/
       Driver.cvCreateImage_gray w = None \/ Driver.cvCreateImage_mygray w = None) /\
    (status <> 0 -> status = -1) /\
    (Driver.argc w < 2 ->
       events = [Driver.Printf "Usage: ./example05 imageName"]) /\
    (2 <= Driver.argc w -> Driver.cvLoadImage w = None ->
       events = [Driver.Printf "File %s not opened, program ending\n"]) /\
    (2 <= Driver.argc w -> Driver.cvLoadImage w <> None ->
     Driver.cvCreateImage_gray w = None ->
       events = [Driver.Printf "No memory allocated for grayimg\n";
                 Driver.ReleaseImage "colorimg"]) /\
    (2 <= Driver.argc w -> Driver.cvLoadImage w <> None ->
     Driver.cvCreateImage_gray w <> None ->
     Driver.cvCreateImage_mygray w = None ->
       events = [Driver.Printf "No memory allocated for mygrayimg\n";
                 Driver.ReleaseImage "colorimg"; Driver.ReleaseImage "grayimg"]).
Proof.
  intros Hok. unfold Driver.main, Driver.success.
  destruct (Z.ltb_spec (Driver.argc w) 2) as [Hargc | Hargc].
  { eexists _, _. split; [reflexivity|].
    repeat split; intros; try reflexivity; try lia; try tauto; try discriminate;
      try congruence. }
  destruct (Driver.cvLoadImage w) as [colorimg|] eqn:Eload.
  2: { eexists _, _. split; [reflexivity|].
       repeat split; intros; try reflexivity; try lia; try tauto; try discriminate;
      try congruence.
       destruct H as (_ & Hsome & _). destruct Hsome as [x Hx]. discriminate Hx. }
  destruct (Driver.cvCreateImage_gray w) as [grayimg|] eqn:Egray.
  2: { eexists _, _. split; [reflexivity|].
       repeat split; intros; try reflexivity; try lia; try tauto; try discriminate;
      try congruence.
       destruct H as (_ & _ & Hsome & _). destruct Hsome as [x Hx]. discriminate Hx. }
  destruct (Driver.cvCreateImage_mygray w) as [mygrayimg|] eqn:Emygray.
  2: { eexists _, _. split; [reflexivity|].
       repeat split; intros; try reflexivity; try lia; try tauto; try discriminate;
      try congruence.
       destruct H as (_ & _ & _ & Hsome). destruct Hsome as [x Hx]. discriminate Hx. }
  destruct (Hok colorimg mygrayimg Eload Emygray) as [Hc Hg].
  destruct (KernelFacts.main_loop_spec colorimg mygrayimg Hc Hg) as (gray & E & _).
  rewrite E. cbn [mbind option_bind].
  eexists _, _. split; [reflexivity|].
  repeat split; intros; try reflexivity; try lia; try discriminate;
    try congruence; eauto.
  destruct H as [H | [H | [H | H]]]; [lia | discriminate..].
Qed.

Lemma C7_exit_status_witness :
  exists status events,
    Driver.main Samples.all_succeeds = Some (status, events) /\
    (status = 0 <-> Driver.success Samples.all_succeeds) /\
    (status <> 0 <->
       2 < 2 \/ Some Samples.dim_pixel = None \/
       Some Samples.gray_one_pixel = None \/ Some Samples.gray_one_pixel = None) /\
    (status <> 0 -> status = -1) /\
    (2 < 2 -> events = [Driver.Printf "Usage: ./example05 imageName"]) /\
    (2 <= 2 -> Some Samples.dim_pixel = None ->
       events = [Driver.Printf "File %s not opened, program ending\n"]) /\
    (2 <= 2 -> Some Samples.dim_pixel <> None ->
     Some Samples.gray_one_pixel = None ->
       events = [Driver.Printf "No memory allocated for grayimg\n";
                 Driver.ReleaseImage "colorimg"]) /\
    (2 <= 2 -> Some Samples.dim_pixel <> None ->
     Some Samples.gray_one_pixel <> None ->
     Some Samples.gray_one_pixel = None ->
       events = [Driver.Printf "No memory allocated for mygrayimg\n";
                 Driver.ReleaseImage "colorimg"; Driver.ReleaseImage "grayimg"]).
Proof.
  apply (C7_exit_status Samples.all_succeeds).
  intros colorimg mygrayimg [= <-] [= <-].
  split; [unfold color_ok | unfold gray_ok]; cbn; lia.
Defined.

(** C8, as worded, fails: for the 1 by 1 image whose pixel is (1, 1, 1) the
    loop stores 0, because the [double] sum 0.299 + 0.587 + 0.114 is just
    below 1, while the contract's exact luminance is 1. *)
Lemma C8_counterexample : ~ Stated.width_one_meets_contract.
Proof.
  intros H.
  specialize (H Samples.dim_pixel Samples.gray_one_pixel).
  assert (Hcode : main_loop Samples.dim_pixel Samples.gray_one_pixel = Some [0])
    by (vm_compute; reflexivity).
  assert (Href : Contract.kernel Samples.dim_pixel Samples.gray_one_pixel = Some [1])
    by (vm_compute; reflexivity).
  rewrite Hcode, Href in H.
  assert (Some [0] = Some [1]) as [=].
  apply H.
  - reflexivity.
  - unfold color_ok. cbn. lia.
  - unfold gray_ok. cbn. lia.
  - repeat constructor; unfold Luma.is_uchar; lia.
Qed.

(** C8, amended. For a colour image of width 1 the loop reads and writes
    where the contract of section 4.2 does: it is the contract's kernel with
    the luminance evaluated in [double] arithmetic. Each byte of its
    destination is the byte of the reference kernel or the one below it. *)
Theorem C8_width_one_indexing colorimg mygrayimg :
  width colorimg = 1 ->
  color_ok colorimg ->
  gray_ok (width colorimg) (height colorimg) mygrayimg ->
  Forall Luma.is_uchar (imageData colorimg) ->
  main_loop colorimg mygrayimg = Contract.kernel_with Luma.luma colorimg mygrayimg /\
  exists gray reference,
    main_loop colorimg mygrayimg = Some gray /\
    Contract.kernel colorimg mygrayimg = Some reference /\
    Forall2 Stated.within_one gray reference.
Proof.
  intros Hw Hc Hg Hbytes.
  pose proof (ContractFacts.main_loop_width_one colorimg mygrayimg Hw) as Hsame.
  split; [exact Hsame|].
  destruct (KernelFacts.main_loop_spec colorimg mygrayimg Hc Hg) as (gray & E & _).
  pose proof (ContractFacts.kernel_with_within_one Luma.luma Luma.contract_luma
                colorimg mygrayimg) as Hnear.
  fold Contract.kernel in Hnear. rewrite <- Hsame, E in Hnear.
  specialize (Hnear ltac:(intros; apply LumaFacts.luma_near_contract; assumption) Hbytes).
  inversion Hnear as [gray' reference Hrel Eg Er|]; subst.
  exists gray, reference. auto.
Qed.

Lemma C8_width_one_indexing_witness :
  main_loop Samples.column_padded Samples.gray_column_padded
    = Contract.kernel_with Luma.luma Samples.column_padded Samples.gray_column_padded /\
  exists gray reference,
    main_loop Samples.column_padded Samples.gray_column_padded = Some gray /\
    Contract.kernel Samples.column_padded Samples.gray_column_padded = Some reference /\
    Forall2 Stated.within_one gray reference.
Proof.
  apply (C8_width_one_indexing Samples.column_padded Samples.gray_column_padded).
  - reflexivity.
  - unfold color_ok. cbn. lia.
  - unfold gray_ok. cbn. lia.
  - repeat constructor; unfold Luma.is_uchar; lia.
Defined.

(** C9. Every offset of the colour buffer the loop reads is one of
    [r * colorstep + c], [+ 1], [+ 2] for a pixel [(r, c)] of the image, lies
    among the [3 * width] pixel bytes of row [r], and is not a padding
    byte. *)
Theorem C9_reads_stay_in_pixel_bytes colorimg mygrayimg :
  color_ok colorimg ->
  gray_ok (width colorimg) (height colorimg) mygrayimg ->
  exists st,
    main_loop_state colorimg mygrayimg = Some st /\
    forall i, In i (reads st) ->
      (exists r c k, 0 <= r < height colorimg /\ 0 <= c < width colorimg /\
                     0 <= k <= 2 /\ i = r * widthStep colorimg + c + k /\
                     r * widthStep colorimg <= i
                       < r * widthStep colorimg + 3 * width colorimg) /\
      ~ padding_offset colorimg i.
Proof.
  intros Hc Hg.
  destruct (KernelFacts.main_loop_state_spec colorimg mygrayimg Hc Hg)
    as (st & E & _ & _ & _ & Hreads).
  exists st. split; [exact E|]. intros i Hi.
  rewrite Forall_forall in Hreads.
  assert (Hread : read_offset colorimg i) by (apply Hreads, list_elem_of_In, Hi).
  split.
  - destruct Hread as (r & c & k & Hr & Hcol & Hk & ->).
    exists r, c, k. repeat split; try lia; assumption.
  - intros Hpad. apply (KernelFacts.pixel_not_padding colorimg i).
    + apply Hc.
    + apply KernelFacts.read_offset_pixel, Hread.
    + exact Hpad.
Qed.

Lemma C9_reads_stay_in_pixel_bytes_witness :
  exists st,
    main_loop_state Samples.column_padded Samples.gray_column_padded = Some st /\
    forall i, In i (reads st) ->
      (exists r c k, 0 <= r < 2 /\ 0 <= c < 1 /\ 0 <= k <= 2 /\ i = r * 4 + c + k /\
                     r * 4 <= i < r * 4 + 3 * 1) /\
      ~ padding_offset Samples.column_padded i.
Proof.
  apply (C9_reads_stay_in_pixel_bytes Samples.column_padded Samples.gray_column_padded).
  - unfold color_ok. cbn. lia.
  - unfold gray_ok. cbn. lia.
Defined.

(** C10, as worded, fails: the pixel (1, 1, 1) is stored as 0, which is
    below the minimum of its three samples. *)
Lemma C10_counterexample : ~ Stated.gray_between_samples.
Proof.
  intros H.
  specialize (H Samples.dim_pixel Samples.gray_one_pixel [0] 0 0 1 1 1 0).
  assert (Z.min 1 (Z.min 1 1) <= 0 <= Z.max 1 (Z.max 1 1)) as [Hlow _]; [|lia].
  apply H; try reflexivity.
  - unfold color_ok. cbn. lia.
  - unfold gray_ok. cbn. lia.
  - repeat constructor; unfold Luma.is_uchar; lia.
  - cbn. lia.
  - cbn. lia.
Qed.

(** C10, amended. The gray byte the loop stores for a pixel is at most the
    maximum of the three bytes it read for that pixel and at least their
    minimum less one. *)
Theorem C10_gray_near_samples colorimg mygrayimg :
  color_ok colorimg ->
  gray_ok (width colorimg) (height colorimg) mygrayimg ->
  Forall Luma.is_uchar (imageData colorimg) ->
  exists gray,
    main_loop colorimg mygrayimg = Some gray /\
    forall row col, 0 <= row < height colorimg -> 0 <= col < width colorimg ->
      exists blue green red y,
        load (imageData colorimg) (row * widthStep colorimg + col) = Some blue /\
        load (imageData colorimg) (row * widthStep colorimg + col + 1) = Some green /\
        load (imageData colorimg) (row * widthStep colorimg + col + 2) = Some red /\
        load gray (row * widthStep mygrayimg + col) = Some y /\
        Z.min blue (Z.min green red) - 1 <= y <= Z.max blue (Z.max green red).
Proof.
  intros Hc Hg Hbytes.
  destruct (KernelFacts.main_loop_spec colorimg mygrayimg Hc Hg)
    as (gray & E & _ & Hdone & _).
  exists gray. split; [exact E|]. intros row col Hrow Hcol.
  assert (Hin : forall k, 0 <= k < 3 * width colorimg ->
            load (imageData colorimg) (row * widthStep colorimg + k)
              = Some (byte_at (imageData colorimg) (row * widthStep colorimg + k)) /\
            Luma.is_uchar (byte_at (imageData colorimg) (row * widthStep colorimg + k))).
  { intros k Hk.
    pose proof (load_inside _ _ (KernelFacts.pixel_bytes_inside colorimg row k Hc Hrow Hk))
      as Hload.
    split; [exact Hload|]. rewrite Forall_forall in Hbytes. apply Hbytes.
    apply list_elem_of_In. exact (load_elem _ _ _ Hload). }
  destruct (Hin col ltac:(lia)) as [Eb Hb].
  destruct (Hin (col + 1) ltac:(lia)) as [Eg Hgr].
  destruct (Hin (col + 2) ltac:(lia)) as [Er Hr].
  rewrite !Z.add_assoc in Eg, Er, Hgr, Hr.
  eexists _, _, _, _. split; [exact Eb|]. split; [exact Eg|]. split; [exact Er|].
  split; [apply Hdone; assumption|].
  unfold gray_at.
  set (blue := byte_at _ (row * widthStep colorimg + col)) in *.
  set (green := byte_at _ (row * widthStep colorimg + col + 1)) in *.
  set (red := byte_at _ (row * widthStep colorimg + col + 2)) in *.
  pose proof (LumaFacts.luma_near_contract red green blue Hr Hgr Hb) as Hnear.
  unfold Luma.is_uchar in Hb, Hgr, Hr.
  pose proof (LumaFacts.contract_luma_between red green blue
                ltac:(lia) ltac:(lia) ltac:(lia)) as Hbetween.
  lia.
Qed.

Lemma C10_gray_near_samples_witness :
  exists gray,
    main_loop Samples.dim_pixel Samples.gray_one_pixel = Some gray /\
    forall row col, 0 <= row < 1 -> 0 <= col < 1 ->
      exists blue green red y,
        load [1; 1; 1] (row * 3 + col) = Some blue /\
        load [1; 1; 1] (row * 3 + col + 1) = Some green /\
        load [1; 1; 1] (row * 3 + col + 2) = Some red /\
        load gray (row * 1 + col) = Some y /\
        Z.min blue (Z.min green red) - 1 <= y <= Z.max blue (Z.max green red).
Proof.
  apply (C10_gray_near_samples Samples.dim_pixel Samples.gray_one_pixel).
  - unfold color_ok. cbn. lia.
  - unfold gray_ok. cbn. lia.
  - repeat constructor; unfold Luma.is_uchar; lia.
Defined.

(** ** Further properties of the pixel arithmetic *)

Module LumaIntFacts.
Import Luma LumaInt.

Lemma weighted_sum_spec r g b :
  0 <= Uint63.to_Z r < 256 -> 0 <= Uint63.to_Z g < 256 -> 0 <= Uint63.to_Z b < 256 ->
  Uint63.to_Z (299 * r + 587 * g + 114 * b)
  = 299 * Uint63.to_Z r + 587 * Uint63.to_Z g + 114 * Uint63.to_Z b.
Proof.
  intros Hr Hg Hb.
  assert (Ew : wB = 9223372036854775808) by reflexivity.
  rewrite !Uint63.add_spec, !Uint63.mul_spec.
  change (Uint63.to_Z 299) with 299. change (Uint63.to_Z 587) with 587.
  change (Uint63.to_Z 114) with 114.
  rewrite (Z.mod_small (299 * _)), (Z.mod_small (587 * _)), (Z.mod_small (114 * _)) by lia.
  rewrite (Z.mod_small (299 * _ + 587 * _)) by lia.
  apply Z.mod_small. lia.
Qed.

(** Where the exhaustive check passes, the integer computation is the
    gray value of the model. *)
Lemma luma_int_spec r g b :
  near_contract r g b = true ->
  luma (Uint63.to_Z r) (Uint63.to_Z g) (Uint63.to_Z b) = Uint63.to_Z (luma_int r g b).
Proof.
  unfold near_contract, luma_int, luma, uchar_to_double.
  rewrite !Uint63.of_to_Z. fold (luma_double r g b).
  unfold trunc_double, FloatOps.Z.frexp.
  destruct (frshiftexp (luma_double r g b)) as [m se].
  intros H. apply andb_prop in H as [H _]. apply andb_prop in H as [H _].
  apply andb_prop in H as [H1 H2].
  apply negb_true_iff in H1. rewrite H1.
  apply Uint63.leb_spec in H2. change (Uint63.to_Z 2154) with 2154 in H2.
  assert (Ew : wB = 9223372036854775808) by reflexivity.
  rewrite Uint63.lsr_spec, Uint63.sub_spec. change (Uint63.to_Z 2154) with 2154.
  pose proof (Uint63.to_Z_bounded se).
  rewrite Z.mod_small by lia.
  rewrite Z.shiftr_div_pow2 by (unfold prec, FloatOps.shift; lia).
  do 2 f_equal. unfold prec, FloatOps.shift. lia.
Qed.

Lemma uchar_to_Z z :
  is_uchar z -> Uint63.to_Z (Uint63.of_Z z) = z.
Proof.
  unfold is_uchar. intros Hz.
  assert (Ew : wB = 9223372036854775808) by reflexivity.
  rewrite Uint63.of_Z_spec. apply Z.mod_small. lia.
Qed.

Lemma near_contract_of_uchars red green blue :
  is_uchar red -> is_uchar green -> is_uchar blue ->
  near_contract (Uint63.of_Z red) (Uint63.of_Z green) (Uint63.of_Z blue) = true.
Proof.
  intros Hr Hg Hb.
  pose proof LumaFacts.near_contract_forall as H.
  rewrite forallb_forall in H.
  specialize (H _ (LumaFacts.uchars_spec _ Hr)). rewrite forallb_forall in H.
  specialize (H _ (LumaFacts.uchars_spec _ Hg)). rewrite forallb_forall in H.
  specialize (H _ (LumaFacts.uchars_spec _ Hb)). exact H.
Qed.

Lemma luma_as_int red green blue :
  is_uchar red -> is_uchar green -> is_uchar blue ->
  luma red green blue
  = Uint63.to_Z (luma_int (Uint63.of_Z red) (Uint63.of_Z green) (Uint63.of_Z blue)).
Proof.
  intros Hr Hg Hb.
  rewrite <- (luma_int_spec _ _ _ (near_contract_of_uchars _ _ _ Hr Hg Hb)).
  rewrite !uchar_to_Z by assumption. reflexivity.
Qed.

(** The gray value of three bytes is a byte. *)
Lemma luma_uchar red green blue :
  is_uchar red -> is_uchar green -> is_uchar blue -> is_uchar (luma red green blue).
Proof.
  intros Hr Hg Hb.
  pose proof (LumaFacts.luma_near_contract red green blue Hr Hg Hb) as Hnear.
  rewrite (luma_as_int red green blue Hr Hg Hb) in *.
  pose proof (Uint63.to_Z_bounded
                (luma_int (Uint63.of_Z red) (Uint63.of_Z green) (Uint63.of_Z blue))).
  unfold is_uchar in *.
  assert (contract_luma red green blue < 256).
  { unfold contract_luma. apply Z.quot_lt_upper_bound; lia. }
  lia.
Qed.

Lemma exact_off_integers_forall :
  forallb (fun r => forallb (fun g => forallb (fun b => exact_off_integers r g b)
                                               uchars) uchars) uchars = true.
Proof. vm_compute. reflexivity. Qed.

Lemma luma_exact_off_integers red green blue :
  is_uchar red -> is_uchar green -> is_uchar blue ->
  (299 * red + 587 * green + 114 * blue) mod 1000 <> 0 ->
  luma red green blue = contract_luma red green blue.
Proof.
  intros Hr Hg Hb Hfrac.
  pose proof exact_off_integers_forall as H.
  rewrite forallb_forall in H.
  specialize (H _ (LumaFacts.uchars_spec _ Hr)). rewrite forallb_forall in H.
  specialize (H _ (LumaFacts.uchars_spec _ Hg)). rewrite forallb_forall in H.
  specialize (H _ (LumaFacts.uchars_spec _ Hb)).
  unfold exact_off_integers in H.
  pose proof (uchar_to_Z _ Hr) as Er. pose proof (uchar_to_Z _ Hg) as Eg.
  pose proof (uchar_to_Z _ Hb) as Eb.
  assert (Es : Uint63.to_Z (299 * Uint63.of_Z red + 587 * Uint63.of_Z green
                            + 114 * Uint63.of_Z blue)
               = 299 * red + 587 * green + 114 * blue).
  { unfold is_uchar in *. rewrite weighted_sum_spec by lia. lia. }
  apply orb_prop in H as [H | H]; apply Uint63.eqb_spec in H.
  - exfalso. apply Hfrac. apply (f_equal Uint63.to_Z) in H.
    rewrite Uint63.mod_spec, Es in H. exact H.
  - rewrite (luma_as_int red green blue Hr Hg Hb), H.
    rewrite Uint63.div_spec, Es. unfold contract_luma, is_uchar in *.
    rewrite Z.quot_div_nonneg by lia. reflexivity.
Qed.

End LumaIntFacts.

(** ** Further properties of counted loops and of the loop's log *)

Section MoreLoops.
Context {A : Type}.

(** What every completed trip keeps holds after a loop that completes. *)
Lemma for_loop_partial (P : Z -> A -> Prop) (body : Z -> A -> option A) trips :
  forall i0 a a',
    P i0 a ->
    (forall i a a', i0 <= i < i0 + Z.of_nat trips -> P i a -> body i a = Some a' ->
                    P (i + 1) a') ->
    for_loop trips i0 body a = Some a' ->
    P (i0 + Z.of_nat trips) a'.
Proof.
  induction trips as [|n IH]; intros i0 a a' H0 Hstep Hrun.
  - injection Hrun as <-. replace (i0 + Z.of_nat 0) with i0 by lia. exact H0.
  - cbn [for_loop] in Hrun.
    destruct (body i0 a) as [a1|] eqn:E1; [|discriminate].
    cbn in Hrun.
    replace (i0 + Z.of_nat (S n)) with (i0 + 1 + Z.of_nat n) by lia.
    apply (IH (i0 + 1) a1 a'); [| |exact Hrun].
    + apply (Hstep i0 a a1); [lia | exact H0 | exact E1].
    + intros i b b' Hi. apply Hstep. lia.
Qed.

(** A loop whose body changes nothing changes nothing. *)
Lemma for_loop_skip (body : Z -> A -> option A) trips :
  (forall i a, body i a = Some a) ->
  forall i0 a, for_loop trips i0 body a = Some a.
Proof.
  intros Hskip. induction trips as [|n IH]; intros i0 a; [reflexivity|].
  cbn [for_loop]. rewrite Hskip. cbn. apply IH.
Qed.

End MoreLoops.

Module TraceFacts.
Import Kernel Trace.

Lemma load_Some_inside data i v : load data i = Some v -> inside data i.
Proof.
  intros H. apply load_Some in H as [Hi H]. apply lookup_lt_Some in H.
  unfold inside. lia.
Qed.

(** What one completed run of the body did. *)
Lemma pixel_Some colorData colorstep graystep row col st st' :
  pixel colorData colorstep graystep row col st = Some st' ->
  Forall (inside colorData) (pixel_reads colorstep row col) /\
  inside (grayData st) (row * graystep + col) /\
  grayData st'
  = <[Z.to_nat (row * graystep + col) :=
        Luma.luma (byte_at colorData (row * colorstep + col + 2))
                  (byte_at colorData (row * colorstep + col + 1))
                  (byte_at colorData (row * colorstep + col))]> (grayData st) /\
  reads st' = reads st ++ pixel_reads colorstep row col.
Proof.
  unfold pixel. intros H.
  destruct (load colorData (row * colorstep + col)) as [blue|] eqn:Eb; [|discriminate].
  destruct (load colorData (row * colorstep + col + 1)) as [green|] eqn:Eg; [|discriminate].
  destruct (load colorData (row * colorstep + col + 2)) as [red|] eqn:Er; [|discriminate].
  cbn in H.
  destruct (store (grayData st) (row * graystep + col) (Luma.luma red green blue))
    as [data|] eqn:Es; [|discriminate].
  cbn in H. injection H as <-. cbn [grayData reads].
  apply store_Some in Es as [Hin ->].
  rewrite (load_byte_at _ _ _ Eb), (load_byte_at _ _ _ Eg), (load_byte_at _ _ _ Er).
  split; [|split; [exact Hin|split; reflexivity]].
  unfold pixel_reads. repeat constructor; eapply load_Some_inside; eassumption.
Qed.

Lemma seqZ_snoc n : 0 <= n -> seqZ 0 (n + 1) = seqZ 0 n ++ [n].
Proof. intros Hn. rewrite seqZ_app by lia. reflexivity. Qed.

Lemma seqZ_to_nat n : seqZ 0 (Z.of_nat (Z.to_nat n)) = seqZ 0 n.
Proof. unfold seqZ. rewrite Nat2Z.id. reflexivity. Qed.

(** What one completed run of the inner loop did. *)
Lemma row_Some colorData colorstep graystep w row st st' :
  for_loop (Z.to_nat w) 0 (fun col => pixel colorData colorstep graystep row col) st
    = Some st' ->
  length (grayData st') = length (grayData st) /\
  reads st' = reads st ++ row_reads colorstep w row /\
  Forall (inside colorData) (row_reads colorstep w row) /\
  (forall c, 0 <= c < w -> inside (grayData st) (row * graystep + c)).
Proof.
  intros Hrun.
  pose proof (for_loop_partial
    (fun col s =>
       0 <= col /\
       length (grayData s) = length (grayData st) /\
       reads s = reads st ++ flat_map (pixel_reads colorstep row) (seqZ 0 col) /\
       Forall (inside colorData) (flat_map (pixel_reads colorstep row) (seqZ 0 col)) /\
       (forall c, 0 <= c < col -> inside (grayData st) (row * graystep + c)))
    (fun col => pixel colorData colorstep graystep row col) (Z.to_nat w) 0 st st') as H.
  cbv beta in H. rewrite Z.add_0_l, seqZ_to_nat in H.
  destruct H as (_ & Hlen & Hreads & Hin & Hdst); [| |exact Hrun|].
  - split; [lia|]. split; [reflexivity|]. cbn. rewrite app_nil_r.
    split; [reflexivity|]. split; [constructor|]. intros c Hc. lia.
  - intros col s s' Hcol (Hc0 & Hlen & Hreads & Hin & Hdst) Hpix.
    apply pixel_Some in Hpix as (Hin' & Hdst' & Hdata & Hreads').
    rewrite seqZ_snoc, flat_map_app by lia. cbn [flat_map]. rewrite app_nil_r.
    split; [lia|]. split; [|split; [|split]].
    + rewrite Hdata, length_insert. exact Hlen.
    + rewrite Hreads', Hreads, app_assoc. reflexivity.
    + apply Forall_app. split; assumption.
    + intros c Hc. destruct (decide (c = col)) as [->|Hne].
      * unfold inside in *. rewrite <- Hlen. exact Hdst'.
      * apply Hdst. lia.
  - split; [exact Hlen|]. split; [exact Hreads|]. split; [exact Hin|].
    intros c Hc. apply Hdst. lia.
Qed.

(** What a completed run of the two loops did. *)
Lemma main_loop_state_Some colorimg mygrayimg st :
  main_loop_state colorimg mygrayimg = Some st ->
  length (grayData st) = length (imageData mygrayimg) /\
  reads st = expected_reads colorimg /\
  Forall (inside (imageData colorimg)) (expected_reads colorimg) /\
  (forall r c, 0 <= r < height colorimg -> 0 <= c < width colorimg ->
               inside (imageData mygrayimg) (r * widthStep mygrayimg + c)).
Proof.
  unfold main_loop_state. rewrite !KernelFacts.step_of_uchars. intros Hrun.
  set (cs := widthStep colorimg) in *. set (gs := widthStep mygrayimg) in *.
  set (w := width colorimg) in *.
  pose proof (for_loop_partial
    (fun row s =>
       0 <= row /\
       length (grayData s) = length (imageData mygrayimg) /\
       reads s = flat_map (row_reads cs w) (seqZ 0 row) /\
       Forall (inside (imageData colorimg)) (flat_map (row_reads cs w) (seqZ 0 row)) /\
       (forall r c, 0 <= r < row -> 0 <= c < w ->
                    inside (imageData mygrayimg) (r * gs + c)))
    (fun row => for_loop (Z.to_nat w) 0
                  (fun col => pixel (imageData colorimg) cs gs row col))
    (Z.to_nat (height colorimg)) 0
    {| grayData := imageData mygrayimg; reads := [] |} st) as H.
  cbv beta in H. rewrite Z.add_0_l, seqZ_to_nat in H.
  destruct H as (_ & Hlen & Hreads & Hin & Hdst); [| |exact Hrun|].
  - split; [lia|]. split; [reflexivity|]. split; [reflexivity|].
    split; [constructor|]. intros r c Hr. lia.
  - intros row s s' Hrow (Hr0 & Hlen & Hreads & Hin & Hdst) Hinner.
    apply row_Some in Hinner as (Hlen' & Hreads' & Hin' & Hdst').
    rewrite seqZ_snoc, flat_map_app by lia. cbn [flat_map]. rewrite app_nil_r.
    split; [lia|]. split; [|split; [|split]].
    + rewrite Hlen'. exact Hlen.
    + rewrite Hreads', Hreads. reflexivity.
    + apply Forall_app. split; assumption.
    + intros r c Hr Hc. destruct (decide (r = row)) as [->|Hne].
      * unfold inside in *. rewrite <- Hlen. apply Hdst'. exact Hc.
      * apply Hdst; lia.
  - split; [exact Hlen|]. split; [exact Hreads|]. split; [exact Hin|].
    intros r c Hr Hc. apply Hdst; lia.
Qed.

Lemma length_pixel_reads colorstep row col : length (pixel_reads colorstep row col) = 3%nat.
Proof. reflexivity. Qed.

Lemma length_expected_reads img :
  Z.of_nat (length (expected_reads img)) = 3 * Z.max 0 (width img) * Z.max 0 (height img).
Proof.
  unfold expected_reads, row_reads.
  rewrite (flat_map_constant_length (c := (Z.to_nat (width img) * 3)%nat)).
  - rewrite length_seqZ. lia.
  - intros row _. rewrite (flat_map_constant_length (c := 3%nat)).
    + rewrite length_seqZ. reflexivity.
    + intros col _. reflexivity.
Qed.

(** The last pixel of the last row is among the reads. *)
Lemma last_read_expected img :
  1 <= width img -> 1 <= height img ->
  In ((height img - 1) * widthStep img + (width img - 1) + 2) (expected_reads img).
Proof.
  intros Hw Hh. unfold expected_reads, row_reads.
  apply in_flat_map. exists (height img - 1). split.
  - apply list_elem_of_In, elem_of_seqZ. lia.
  - apply in_flat_map. exists (width img - 1). split.
    + apply list_elem_of_In, elem_of_seqZ. lia.
    + cbn. auto.
Qed.

End TraceFacts.

(** ** Further properties of the conversion loop *)

Module SafetyFacts.
Import Kernel Trace.

Lemma row_start_bounds row step bound :
  0 <= row < bound -> 0 <= step -> 0 <= row * step <= (bound - 1) * step.
Proof. intros. nia. Qed.

(** The loop completes when the last pixel of the last row can be read and
    written. *)
Lemma main_loop_state_completes colorimg mygrayimg :
  0 <= widthStep colorimg -> 0 <= widthStep mygrayimg ->
  (height colorimg - 1) * widthStep colorimg + width colorimg + 2
    <= Z.of_nat (length (imageData colorimg)) ->
  (height colorimg - 1) * widthStep mygrayimg + width colorimg
    <= Z.of_nat (length (imageData mygrayimg)) ->
  is_Some (main_loop_state colorimg mygrayimg).
Proof.
  intros Hcs Hgs Hsrc Hdst.
  unfold main_loop_state. rewrite !KernelFacts.step_of_uchars.
  destruct (for_loop_invariant
              (fun _ st => length (grayData st) = length (imageData mygrayimg))
              (fun row => for_loop (Z.to_nat (width colorimg)) 0
                 (fun col => pixel (imageData colorimg) (widthStep colorimg)
                                   (widthStep mygrayimg) row col))
              (Z.to_nat (height colorimg)) 0
              {| grayData := imageData mygrayimg; reads := [] |} eq_refl)
    as (st & E & _); [|rewrite E; eauto].
  intros row st Hrow Hlen.
  assert (Hrow' : 0 <= row < height colorimg) by lia.
  pose proof (row_start_bounds row _ _ Hrow' Hcs).
  pose proof (row_start_bounds row _ _ Hrow' Hgs).
  destruct (for_loop_invariant
              (fun _ s => length (grayData s) = length (imageData mygrayimg))
              (fun col => pixel (imageData colorimg) (widthStep colorimg)
                                (widthStep mygrayimg) row col)
              (Z.to_nat (width colorimg)) 0 st Hlen)
    as (st' & E & Hlen'); [|eauto].
  intros col s Hcol Hs. unfold pixel.
  rewrite (load_inside _ (row * widthStep colorimg + col)) by lia.
  rewrite (load_inside _ (row * widthStep colorimg + col + 1)) by lia.
  rewrite (load_inside _ (row * widthStep colorimg + col + 2)) by lia.
  cbn [mbind option_bind].
  rewrite store_inside by lia. cbn [mbind option_bind].
  eexists. split; [reflexivity|]. cbn [grayData]. rewrite length_insert. exact Hs.
Qed.

End SafetyFacts.

Import Trace.

(** X1. For images that fit together the loop completes, keeps the length of
    the gray buffer, and leaves at [(r, c)] the gray value of the three
    consecutive bytes that start at offset [r * colorstep + c] of the colour
    buffer, taken as blue, green and red. *)
Theorem X1_gray_of_three_consecutive_bytes colorimg mygrayimg :
  color_ok colorimg ->
  gray_ok (width colorimg) (height colorimg) mygrayimg ->
  exists gray,
    main_loop colorimg mygrayimg = Some gray /\
    length gray = length (imageData mygrayimg) /\
    forall r c, 0 <= r < height colorimg -> 0 <= c < width colorimg ->
      exists blue green red,
        load (imageData colorimg) (r * widthStep colorimg + c) = Some blue /\
        load (imageData colorimg) (r * widthStep colorimg + c + 1) = Some green /\
        load (imageData colorimg) (r * widthStep colorimg + c + 2) = Some red /\
        load gray (r * widthStep mygrayimg + c) = Some (Luma.luma red green blue).
Proof.
  intros Hc Hg.
  destruct (KernelFacts.main_loop_spec colorimg mygrayimg Hc Hg)
    as (gray & E & Hlen & Hdone & _).
  exists gray. split; [exact E|]. split; [exact Hlen|].
  intros r c Hr Hcol.
  pose proof (fun k Hk => load_inside _ _
                (KernelFacts.pixel_bytes_inside colorimg r k Hc Hr Hk)) as Hin.
  pose proof (Hin c ltac:(lia)) as Eb.
  pose proof (Hin (c + 1) ltac:(lia)) as Eg.
  pose proof (Hin (c + 2) ltac:(lia)) as Er.
  rewrite !Z.add_assoc in Eg, Er.
  eexists _, _, _. split; [exact Eb|]. split; [exact Eg|]. split; [exact Er|].
  apply Hdone; assumption.
Qed.

Lemma X1_gray_of_three_consecutive_bytes_witness :
  exists gray,
    main_loop Samples.two_pixels Samples.gray_two_pixels = Some gray /\
    length gray = 2%nat /\
    forall r c, 0 <= r < 1 -> 0 <= c < 2 ->
      exists blue green red,
        load [10; 20; 30; 40; 50; 60] (r * 6 + c) = Some blue /\
        load [10; 20; 30; 40; 50; 60] (r * 6 + c + 1) = Some green /\
        load [10; 20; 30; 40; 50; 60] (r * 6 + c + 2) = Some red /\
        load gray (r * 2 + c) = Some (Luma.luma red green blue).
Proof.
  apply (X1_gray_of_three_consecutive_bytes Samples.two_pixels Samples.gray_two_pixels).
  - unfold color_ok. cbn. lia.
  - unfold gray_ok. cbn. lia.
Defined.

(** X2. The loop reads the colour buffer [3 * width * height] times: for
    each row in order and each column in order, the offsets
    [row * colorstep + col], [+ 1], [+ 2] in this order. *)
Theorem X2_reads_in_program_order colorimg mygrayimg :
  color_ok colorimg ->
  gray_ok (width colorimg) (height colorimg) mygrayimg ->
  exists st,
    main_loop_state colorimg mygrayimg = Some st /\
    reads st = expected_reads colorimg /\
    Z.of_nat (length (reads st)) = 3 * width colorimg * height colorimg.
Proof.
  intros Hc Hg.
  destruct (KernelFacts.main_loop_state_spec colorimg mygrayimg Hc Hg) as (st & E & _).
  exists st. split; [exact E|].
  destruct (TraceFacts.main_loop_state_Some _ _ _ E) as (_ & Hreads & _).
  split; [exact Hreads|].
  rewrite Hreads, TraceFacts.length_expected_reads.
  destruct Hc as (Hw & Hh & _). lia.
Qed.

Lemma X2_reads_in_program_order_witness :
  exists st,
    main_loop_state Samples.column_padded Samples.gray_column_padded = Some st /\
    reads st = expected_reads Samples.column_padded /\
    Z.of_nat (length (reads st)) = 3 * 1 * 2.
Proof.
  apply (X2_reads_in_program_order Samples.column_padded Samples.gray_column_padded).
  - unfold color_ok. cbn. lia.
  - unfold gray_ok. cbn. lia.
Defined.

(** X3. For an image of at least one pixel and non-negative row steps the
    loop stays inside its two buffers exactly when the colour buffer reaches
    two bytes past the last column of the last row and the gray buffer
    reaches the last column of the last row; otherwise it runs off a
    buffer. *)
Theorem X3_loop_completes_iff_buffers_reach_last_pixel colorimg mygrayimg :
  1 <= width colorimg -> 1 <= height colorimg ->
  0 <= widthStep colorimg -> 0 <= widthStep mygrayimg ->
  (is_Some (main_loop colorimg mygrayimg) <->
   (height colorimg - 1) * widthStep colorimg + width colorimg + 2
     <= Z.of_nat (length (imageData colorimg)) /\
   (height colorimg - 1) * widthStep mygrayimg + width colorimg
     <= Z.of_nat (length (imageData mygrayimg))).
Proof.
  intros Hw Hh Hcs Hgs. unfold main_loop. rewrite fmap_is_Some. split.
  - intros [st E].
    destruct (TraceFacts.main_loop_state_Some _ _ _ E) as (_ & _ & Hin & Hdst).
    rewrite Forall_forall in Hin.
    pose proof (Hin _ (proj2 (list_elem_of_In _ _)
                        (TraceFacts.last_read_expected colorimg Hw Hh))) as Hlast.
    pose proof (Hdst (height colorimg - 1) (width colorimg - 1)
                  ltac:(lia) ltac:(lia)) as Hlast'.
    unfold inside in *. lia.
  - intros [Hsrc Hdst]. apply SafetyFacts.main_loop_state_completes; assumption.
Qed.

Lemma X3_loop_completes_iff_buffers_reach_last_pixel_witness :
  (is_Some (main_loop MoreSamples.short_last_row MoreSamples.gray_two_by_two) <->
   (2 - 1) * 6 + 2 + 2 <= Z.of_nat 10 /\ (2 - 1) * 2 + 2 <= Z.of_nat 4) /\
  main_loop MoreSamples.short_last_row MoreSamples.gray_two_by_two
  = Some [Luma.luma 3 2 1; Luma.luma 4 3 2; Luma.luma 9 8 7; Luma.luma 10 9 8].
Proof.
  split.
  - apply (X3_loop_completes_iff_buffers_reach_last_pixel
             MoreSamples.short_last_row MoreSamples.gray_two_by_two); cbn; lia.
  - reflexivity.
Defined.

(** X4. The gray image depends only on the first [width + 2] bytes of each
    row of the colour image: two colour images that agree there give the
    same useful gray bytes, whatever the rest of their rows holds. *)
Theorem X4_only_first_bytes_of_a_row_matter c1 c2 g1 g2 :
  color_ok c1 -> color_ok c2 ->
  width c1 = width c2 -> height c1 = height c2 ->
  gray_ok (width c1) (height c1) g1 ->
  gray_ok (width c2) (height c2) g2 ->
  (forall r k, 0 <= r < height c1 -> 0 <= k < width c1 + 2 ->
               load (imageData c1) (r * widthStep c1 + k)
               = load (imageData c2) (r * widthStep c2 + k)) ->
  exists d1 d2,
    main_loop c1 g1 = Some d1 /\ main_loop c2 g2 = Some d2 /\
    forall r c, 0 <= r < height c1 -> 0 <= c < width c1 ->
                load d1 (r * widthStep g1 + c) = load d2 (r * widthStep g2 + c).
Proof.
  intros Hc1 Hc2 Hw Hh Hg1 Hg2 Hsame.
  destruct (KernelFacts.main_loop_spec c1 g1 Hc1 Hg1) as (d1 & E1 & _ & Hd1 & _).
  destruct (KernelFacts.main_loop_spec c2 g2 Hc2 Hg2) as (d2 & E2 & _ & Hd2 & _).
  exists d1, d2. split; [exact E1|]. split; [exact E2|].
  intros r c Hr Hc. rewrite Hd1 by assumption. rewrite Hd2 by lia.
  f_equal. unfold gray_at, byte_at.
  rewrite <- !Z.add_assoc.
  rewrite (Hsame r (c + 2)), (Hsame r (c + 1)), (Hsame r c) by lia.
  reflexivity.
Qed.

Lemma X4_only_first_bytes_of_a_row_matter_witness :
  exists d1 d2,
    main_loop Samples.two_pixels Samples.gray_two_pixels = Some d1 /\
    main_loop MoreSamples.two_pixels_tail_changed Samples.gray_two_pixels = Some d2 /\
    forall r c, 0 <= r < 1 -> 0 <= c < 2 -> load d1 (r * 2 + c) = load d2 (r * 2 + c).
Proof.
  apply (X4_only_first_bytes_of_a_row_matter
           Samples.two_pixels MoreSamples.two_pixels_tail_changed
           Samples.gray_two_pixels Samples.gray_two_pixels).
  - unfold color_ok. cbn. lia.
  - unfold color_ok. cbn. lia.
  - reflexivity.
  - reflexivity.
  - unfold gray_ok. cbn. lia.
  - unfold gray_ok. cbn. lia.
  - cbn [Samples.two_pixels MoreSamples.two_pixels_tail_changed
         width height widthStep imageData].
    intros r k Hr Hk.
    assert (Er : r = 0) by lia.
    assert (Ek : k = 0 \/ k = 1 \/ k = 2 \/ k = 3) by lia.
    subst r. destruct Ek as [-> | [-> | [-> | ->]]]; reflexivity.
Defined.

(** X5. When both buffers hold bytes (values 0 to 255) before the loop, the
    gray buffer holds bytes after it: the [double] assigned to the
    [unsigned char] at line 181 is always in range. *)
Theorem X5_gray_buffer_holds_bytes colorimg mygrayimg :
  color_ok colorimg ->
  gray_ok (width colorimg) (height colorimg) mygrayimg ->
  Forall Luma.is_uchar (imageData colorimg) ->
  Forall Luma.is_uchar (imageData mygrayimg) ->
  exists gray,
    main_loop colorimg mygrayimg = Some gray /\ Forall Luma.is_uchar gray.
Proof.
  intros Hc Hg Hsrc Hdst.
  destruct (KernelFacts.main_loop_state_spec colorimg mygrayimg Hc Hg) as (st & E & _).
  exists (grayData st). unfold main_loop. rewrite E. split; [reflexivity|].
  assert (Hbyte : forall i, inside (imageData colorimg) i ->
                            Luma.is_uchar (byte_at (imageData colorimg) i)).
  { intros i Hi. rewrite Forall_forall in Hsrc. apply Hsrc.
    apply list_elem_of_In. exact (load_elem _ _ _ (load_inside _ _ Hi)). }
  unfold main_loop_state in E.
  eapply (for_loop_partial (fun _ s => Forall Luma.is_uchar (grayData s)));
    [ | |exact E]; [exact Hdst|].
  intros row s s' _ Hs Hrow.
  eapply (for_loop_partial (fun _ s => Forall Luma.is_uchar (grayData s)));
    [ | |exact Hrow]; [exact Hs|].
  intros col t t' _ Ht Hpix.
  apply TraceFacts.pixel_Some in Hpix as (Hin & _ & -> & _).
  unfold pixel_reads in Hin.
  inversion Hin as [|? ? H0 Hin1]; subst. inversion Hin1 as [|? ? H1 Hin2]; subst.
  inversion Hin2 as [|? ? H2 _]; subst.
  apply Forall_insert; [exact Ht|].
  apply LumaIntFacts.luma_uchar; apply Hbyte; assumption.
Qed.

Lemma X5_gray_buffer_holds_bytes_witness :
  exists gray,
    main_loop Samples.column_padded Samples.gray_column_padded = Some gray /\
    Forall Luma.is_uchar gray.
Proof.
  apply (X5_gray_buffer_holds_bytes Samples.column_padded Samples.gray_column_padded).
  - unfold color_ok. cbn. lia.
  - unfold gray_ok. cbn. lia.
  - repeat constructor; unfold Luma.is_uchar; lia.
  - repeat constructor; unfold Luma.is_uchar; lia.
Defined.

(** X6. Running the loop again on the gray buffer it produced changes
    nothing: the second run completes with the same buffer. *)
Theorem X6_second_run_changes_nothing colorimg mygrayimg gray :
  color_ok colorimg ->
  gray_ok (width colorimg) (height colorimg) mygrayimg ->
  main_loop colorimg mygrayimg = Some gray ->
  main_loop colorimg (with_data mygrayimg gray) = Some gray.
Proof.
  intros Hc Hg E.
  destruct (KernelFacts.main_loop_spec colorimg mygrayimg Hc Hg)
    as (gray' & E' & Hlen & Hdone & _).
  rewrite E in E'. injection E' as <-.
  assert (Hw : 0 <= width colorimg) by apply Hc.
  assert (Hh : 0 <= height colorimg) by apply Hc.
  destruct Hg as (_ & _ & Hgs & Hdst).
  unfold main_loop, main_loop_state. rewrite !KernelFacts.step_of_uchars.
  cbn [with_data imageData widthStep].
  destruct (for_loop_invariant
              (fun _ st => grayData st = gray)
              (fun row => for_loop (Z.to_nat (width colorimg)) 0
                 (fun col => pixel (imageData colorimg) (widthStep colorimg)
                                   (widthStep mygrayimg) row col))
              (Z.to_nat (height colorimg)) 0
              {| grayData := gray; reads := [] |} eq_refl)
    as (st & Est & Hst); [|rewrite Est; cbn; rewrite Hst; reflexivity].
  intros row st Hrow Hst.
  assert (Hrow' : 0 <= row < height colorimg) by lia.
  apply (for_loop_invariant (fun _ s => grayData s = gray)); [exact Hst|].
  intros col s Hcol Hs.
  assert (Hcol' : 0 <= col < width colorimg) by lia.
  pose proof (fun k Hk => load_inside _ _
                (KernelFacts.pixel_bytes_inside colorimg row k Hc Hrow' Hk)) as Hin.
  unfold pixel.
  rewrite (Hin col) by lia. cbn [mbind option_bind].
  rewrite <- !Z.add_assoc.
  rewrite (Hin (col + 1)) by lia. cbn [mbind option_bind].
  rewrite (Hin (col + 2)) by lia. cbn [mbind option_bind].
  rewrite !Z.add_assoc.
  pose proof (Hdone row col Hrow' Hcol') as Hgray. unfold gray_at in Hgray.
  pose proof (TraceFacts.load_Some_inside _ _ _ Hgray) as Hinside.
  rewrite Hs, store_inside by exact Hinside. cbn [mbind option_bind].
  eexists. split; [reflexivity|]. cbn [grayData].
  apply list_insert_id. apply load_Some in Hgray as [_ Hgray]. exact Hgray.
Qed.

Lemma X6_second_run_changes_nothing_witness :
  main_loop Samples.column_padded
            (with_data Samples.gray_column_padded [29; 171; 172; 173; 0; 175; 176; 177])
  = Some [29; 171; 172; 173; 0; 175; 176; 177].
Proof.
  apply (X6_second_run_changes_nothing Samples.column_padded Samples.gray_column_padded).
  - unfold color_ok. cbn. lia.
  - unfold gray_ok. cbn. lia.
  - reflexivity.
Defined.

(** X7. When the colour image has no rows or no columns (height or width
    zero or negative) the loop reads nothing and leaves the gray buffer as
    it was, whatever the two buffers and row steps are. *)
Theorem X7_empty_image_is_left_alone colorimg mygrayimg :
  height colorimg <= 0 \/ width colorimg <= 0 ->
  main_loop_state colorimg mygrayimg
  = Some {| grayData := imageData mygrayimg; reads := [] |}.
Proof.
  intros [Hh | Hw]; unfold main_loop_state.
  - replace (Z.to_nat (height colorimg)) with 0%nat by lia. reflexivity.
  - replace (Z.to_nat (width colorimg)) with 0%nat by lia.
    apply for_loop_skip. reflexivity.
Qed.

Lemma X7_empty_image_is_left_alone_witness :
  main_loop_state MoreSamples.no_rows Samples.gray_two_pixels
  = Some {| grayData := [0; 0]; reads := [] |}.
Proof.
  apply (X7_empty_image_is_left_alone MoreSamples.no_rows Samples.gray_two_pixels).
  left. cbn. lia.
Defined.

(** X8. When every pixel byte of the colour image is the same byte [v], every
    useful gray byte is the same value, and that value is [v] or [v - 1]. *)
Theorem X8_uniform_image colorimg mygrayimg v :
  color_ok colorimg ->
  gray_ok (width colorimg) (height colorimg) mygrayimg ->
  Luma.is_uchar v ->
  (forall r k, 0 <= r < height colorimg -> 0 <= k < 3 * width colorimg ->
               load (imageData colorimg) (r * widthStep colorimg + k) = Some v) ->
  exists gray,
    main_loop colorimg mygrayimg = Some gray /\
    (forall r c, 0 <= r < height colorimg -> 0 <= c < width colorimg ->
                 load gray (r * widthStep mygrayimg + c) = Some (Luma.luma v v v)) /\
    v - 1 <= Luma.luma v v v <= v.
Proof.
  intros Hc Hg Hv Hsame.
  destruct (KernelFacts.main_loop_spec colorimg mygrayimg Hc Hg)
    as (gray & E & _ & Hdone & _).
  exists gray. split; [exact E|]. split.
  - intros r c Hr Hcol. rewrite Hdone by assumption. f_equal.
    unfold gray_at, byte_at. rewrite <- !Z.add_assoc.
    rewrite (Hsame r (c + 2)), (Hsame r (c + 1)), (Hsame r c) by lia.
    reflexivity.
  - pose proof (LumaFacts.luma_near_contract v v v Hv Hv Hv) as Hnear.
    assert (Ev : Luma.contract_luma v v v = v).
    { unfold Luma.contract_luma, Luma.is_uchar in *.
      replace (299 * v + 587 * v + 114 * v) with (v * 1000) by lia.
      apply Z.quot_mul. lia. }
    rewrite Ev in Hnear. exact Hnear.
Qed.

Lemma X8_uniform_image_witness :
  exists gray,
    main_loop MoreSamples.mid_gray Samples.gray_one_pixel = Some gray /\
    (forall r c, 0 <= r < 1 -> 0 <= c < 1 ->
                 load gray (r * 1 + c) = Some (Luma.luma 128 128 128)) /\
    128 - 1 <= Luma.luma 128 128 128 <= 128.
Proof.
  apply (X8_uniform_image MoreSamples.mid_gray Samples.gray_one_pixel 128).
  - unfold color_ok. cbn. lia.
  - unfold gray_ok. cbn. lia.
  - unfold Luma.is_uchar. lia.
  - cbn [MoreSamples.mid_gray width height widthStep imageData].
    intros r k Hr Hk.
    assert (Er : r = 0) by lia. assert (Ek : k = 0 \/ k = 1 \/ k = 2) by lia.
    subst r. destruct Ek as [-> | [-> | ->]]; reflexivity.
Defined.

(** X9. At every pixel whose exact luminance
    [(299 R + 587 G + 114 B) / 1000] is not a whole number, the byte the loop
    stores is that luminance truncated: the [double] evaluation can only be
    one too low where the exact luminance is a whole number. *)
Theorem X9_exact_where_luminance_is_fractional colorimg mygrayimg :
  color_ok colorimg ->
  gray_ok (width colorimg) (height colorimg) mygrayimg ->
  Forall Luma.is_uchar (imageData colorimg) ->
  exists gray,
    main_loop colorimg mygrayimg = Some gray /\
    forall r c blue green red,
      0 <= r < height colorimg -> 0 <= c < width colorimg ->
      load (imageData colorimg) (r * widthStep colorimg + c) = Some blue ->
      load (imageData colorimg) (r * widthStep colorimg + c + 1) = Some green ->
      load (imageData colorimg) (r * widthStep colorimg + c + 2) = Some red ->
      (299 * red + 587 * green + 114 * blue) mod 1000 <> 0 ->
      load gray (r * widthStep mygrayimg + c)
      = Some (Luma.contract_luma red green blue).
Proof.
  intros Hc Hg Hbytes.
  destruct (KernelFacts.main_loop_spec colorimg mygrayimg Hc Hg)
    as (gray & E & _ & Hdone & _).
  exists gray. split; [exact E|].
  intros r c blue green red Hr Hcol Eb Eg Er Hfrac.
  rewrite Hdone by assumption. f_equal. unfold gray_at.
  rewrite (load_byte_at _ _ _ Eb), (load_byte_at _ _ _ Eg), (load_byte_at _ _ _ Er).
  rewrite Forall_forall in Hbytes.
  apply LumaIntFacts.luma_exact_off_integers; try exact Hfrac;
    apply Hbytes, list_elem_of_In; eapply load_elem; eassumption.
Qed.

Lemma X9_exact_where_luminance_is_fractional_witness :
  exists gray,
    main_loop Samples.two_pixels Samples.gray_two_pixels = Some gray /\
    forall r c blue green red,
      0 <= r < 1 -> 0 <= c < 2 ->
      load [10; 20; 30; 40; 50; 60] (r * 6 + c) = Some blue ->
      load [10; 20; 30; 40; 50; 60] (r * 6 + c + 1) = Some green ->
      load [10; 20; 30; 40; 50; 60] (r * 6 + c + 2) = Some red ->
      (299 * red + 587 * green + 114 * blue) mod 1000 <> 0 ->
      load gray (r * 2 + c) = Some (Luma.contract_luma red green blue).
Proof.
  apply (X9_exact_where_luminance_is_fractional Samples.two_pixels Samples.gray_two_pixels).
  - unfold color_ok. cbn. lia.
  - unfold gray_ok. cbn. lia.
  - repeat constructor; unfold Luma.is_uchar; lia.
Defined.

(** ** Further properties of the driver *)

(** X10. When the image loads and an allocation fails, [main] prints one
    message, releases exactly the images it acquired before (the colour
    image, and the first gray image when the second allocation fails), shows
    nothing and returns -1. *)
Theorem X10_allocation_failure_releases_acquired w colorimg :
  2 <= Driver.argc w ->
  Driver.cvLoadImage w = Some colorimg ->
  Driver.cvCreateImage_gray w = None \/ Driver.cvCreateImage_mygray w = None ->
  exists events,
    Driver.main w = Some (-1, events) /\
    length (DriverLog.printed events) = 1%nat /\
    DriverLog.shown events = [] /\
    DriverLog.released events
    = match Driver.cvCreateImage_gray w with
      | Some _ => ["colorimg"; "grayimg"]%string
      | None => ["colorimg"]%string
      end.
Proof.
  intros Hargc Hload Hfail. unfold Driver.main.
  destruct (Z.ltb_spec (Driver.argc w) 2) as [Hlt|_]; [lia|].
  rewrite Hload.
  destruct (Driver.cvCreateImage_gray w) as [grayimg|].
  - destruct Hfail as [Hfail | Hfail]; [discriminate|]. rewrite Hfail.
    eexists. split; [reflexivity|]. repeat split.
  - eexists. split; [reflexivity|]. repeat split.
Qed.

Lemma X10_allocation_failure_releases_acquired_witness :
  exists events,
    Driver.main MoreSamples.second_allocation_fails = Some (-1, events) /\
    length (DriverLog.printed events) = 1%nat /\
    DriverLog.shown events = [] /\
    DriverLog.released events = ["colorimg"; "grayimg"]%string.
Proof.
  apply (X10_allocation_failure_releases_acquired
           MoreSamples.second_allocation_fails Samples.dim_pixel).
  - cbn. lia.
  - reflexivity.
  - right. reflexivity.
Defined.

(** X11. On a successful run [main] shows three windows, of which "gray" and
    "mygray" both show the image made by the library conversion: the image
    the loop filled is never shown. It releases the colour image twice and
    neither gray image. *)
Theorem X11_success_path_display_and_release w :
  Driver.world_ok w ->
  Driver.success w ->
  exists events,
    Driver.main w = Some (0, events) /\
    DriverLog.shown events
    = [("color", "colorimg"); ("gray", "grayimg"); ("mygray", "grayimg")]%string /\
    DriverLog.released events = ["colorimg"; "colorimg"]%string.
Proof.
  intros Hok (Hargc & [colorimg Hload] & [grayimg Hgray] & [mygrayimg Hmygray]).
  unfold Driver.main.
  destruct (Z.ltb_spec (Driver.argc w) 2) as [Hlt|_]; [lia|].
  destruct (Hok colorimg mygrayimg Hload Hmygray) as [Hc Hg].
  rewrite Hload, Hgray, Hmygray.
  destruct (KernelFacts.main_loop_spec colorimg mygrayimg Hc Hg) as (gray & E & _).
  rewrite E. cbn [mbind option_bind].
  eexists. split; [reflexivity|]. split; reflexivity.
Qed.

Lemma X11_success_path_display_and_release_witness :
  exists events,
    Driver.main Samples.all_succeeds = Some (0, events) /\
    DriverLog.shown events
    = [("color", "colorimg"); ("gray", "grayimg"); ("mygray", "grayimg")]%string /\
    DriverLog.released events = ["colorimg"; "colorimg"]%string.
Proof.
  apply (X11_success_path_display_and_release Samples.all_succeeds).
  - intros colorimg mygrayimg [= <-] [= <-].
    split; [unfold color_ok | unfold gray_ok]; cbn; lia.
  - unfold Driver.success. cbn. repeat split; eauto. lia.
Defined.

(** ** The gray value grows with the samples *)

Module MonotoneFacts.
Import Luma LumaInt.

Lemma step_up_forall :
  forallb (fun r => forallb (fun g => forallb (fun b => step_up_ok r g b)
                                               uchars) uchars) uchars = true.
Proof. vm_compute. reflexivity. Qed.

Lemma step_up_of_uchars red green blue :
  is_uchar red -> is_uchar green -> is_uchar blue ->
  step_up_ok (Uint63.of_Z red) (Uint63.of_Z green) (Uint63.of_Z blue) = true.
Proof.
  intros Hr Hg Hb.
  pose proof step_up_forall as H.
  rewrite forallb_forall in H.
  specialize (H _ (LumaFacts.uchars_spec _ Hr)). rewrite forallb_forall in H.
  specialize (H _ (LumaFacts.uchars_spec _ Hg)). rewrite forallb_forall in H.
  specialize (H _ (LumaFacts.uchars_spec _ Hb)). exact H.
Qed.

Lemma of_Z_succ z :
  is_uchar z -> (Uint63.of_Z z + 1)%uint63 = Uint63.of_Z (z + 1).
Proof.
  intros Hz. apply Uint63.to_Z_inj.
  assert (Ew : wB = 9223372036854775808) by reflexivity.
  rewrite Uint63.add_spec, !Uint63.of_Z_spec. change (Uint63.to_Z 1) with 1.
  unfold is_uchar in Hz. rewrite !(Z.mod_small _ wB) by (rewrite ?Z.mod_small; lia).
  reflexivity.
Qed.

Lemma not_top z : is_uchar z -> is_uchar (z + 1) ->
  PrimInt63.eqb (Uint63.of_Z z) 255%uint63 = false.
Proof.
  intros Hz Hz'. destruct (PrimInt63.eqb (Uint63.of_Z z) 255%uint63) eqn:E; [|reflexivity].
  apply Uint63.eqb_spec in E. apply (f_equal Uint63.to_Z) in E.
  rewrite (LumaIntFacts.uchar_to_Z _ Hz) in E. change (Uint63.to_Z 255) with 255 in E.
  unfold is_uchar in Hz'. lia.
Qed.

Lemma luma_step red green blue :
  is_uchar red -> is_uchar green -> is_uchar blue ->
  (is_uchar (red + 1) -> luma red green blue <= luma (red + 1) green blue) /\
  (is_uchar (green + 1) -> luma red green blue <= luma red (green + 1) blue) /\
  (is_uchar (blue + 1) -> luma red green blue <= luma red green (blue + 1)).
Proof.
  intros Hr Hg Hb.
  pose proof (step_up_of_uchars red green blue Hr Hg Hb) as H.
  unfold step_up_ok in H.
  apply andb_prop in H as [H H3]. apply andb_prop in H as [H1 H2].
  rewrite (LumaIntFacts.luma_as_int red green blue Hr Hg Hb).
  split; [|split]; intros Hup.
  - rewrite (not_top _ Hr Hup) in H1. cbn in H1. apply Uint63.leb_spec in H1.
    rewrite (LumaIntFacts.luma_as_int (red + 1) green blue Hup Hg Hb).
    rewrite <- (of_Z_succ red Hr). exact H1.
  - rewrite (not_top _ Hg Hup) in H2. cbn in H2. apply Uint63.leb_spec in H2.
    rewrite (LumaIntFacts.luma_as_int red (green + 1) blue Hr Hup Hb).
    rewrite <- (of_Z_succ green Hg). exact H2.
  - rewrite (not_top _ Hb Hup) in H3. cbn in H3. apply Uint63.leb_spec in H3.
    rewrite (LumaIntFacts.luma_as_int red green (blue + 1) Hr Hg Hup).
    rewrite <- (of_Z_succ blue Hb). exact H3.
Qed.

(** A function of a byte that does not fall from one byte to the next does
    not fall between any two bytes. *)
Lemma rising_on_uchars (f : Z -> Z) :
  (forall z, is_uchar z -> is_uchar (z + 1) -> f z <= f (z + 1)) ->
  forall a b, is_uchar a -> is_uchar b -> a <= b -> f a <= f b.
Proof.
  intros Hstep a b Ha Hb Hab.
  replace b with (a + Z.of_nat (Z.to_nat (b - a))) in * by lia.
  induction (Z.to_nat (b - a)) as [|n IH].
  - replace (a + Z.of_nat 0) with a by lia. lia.
  - unfold is_uchar in *.
    replace (a + Z.of_nat (S n)) with (a + Z.of_nat n + 1) in * by lia.
    specialize (IH ltac:(lia) ltac:(lia)).
    specialize (Hstep (a + Z.of_nat n) ltac:(lia) ltac:(lia)). lia.
Qed.

Lemma luma_monotone red green blue red' green' blue' :
  is_uchar red -> is_uchar green -> is_uchar blue ->
  is_uchar red' -> is_uchar green' -> is_uchar blue' ->
  red <= red' -> green <= green' -> blue <= blue' ->
  luma red green blue <= luma red' green' blue'.
Proof.
  intros Hr Hg Hb Hr' Hg' Hb' Lr Lg Lb.
  transitivity (luma red' green blue).
  { apply (rising_on_uchars (fun z => luma z green blue)); try assumption.
    intros z Hz Hz'. apply (luma_step z green blue); assumption. }
  transitivity (luma red' green' blue).
  { apply (rising_on_uchars (fun z => luma red' z blue)); try assumption.
    intros z Hz Hz'. apply (luma_step red' z blue); assumption. }
  apply (rising_on_uchars (fun z => luma red' green' z)); try assumption.
  intros z Hz Hz'. apply (luma_step red' green' z); assumption.
Qed.

End MonotoneFacts.

(** X12. The gray value computed at line 181 grows with the samples: when no
    sample of one pixel is below the matching sample of another, its gray
    value is not below the other's. *)
Theorem X12_brighter_samples_never_darker red green blue red' green' blue' :
  Luma.is_uchar red -> Luma.is_uchar green -> Luma.is_uchar blue ->
  Luma.is_uchar red' -> Luma.is_uchar green' -> Luma.is_uchar blue' ->
  red <= red' -> green <= green' -> blue <= blue' ->
  Luma.luma red green blue <= Luma.luma red' green' blue'.
Proof. apply MonotoneFacts.luma_monotone. Qed.

Lemma X12_brighter_samples_never_darker_witness :
  Luma.luma 30 20 10 <= Luma.luma 31 20 200.
Proof.
  apply (X12_brighter_samples_never_darker 30 20 10 31 20 200);
    unfold Luma.is_uchar; lia.
Defined.
